(** * support_BOT: the dialog-routing and admin-state engine

    A shallow embedding of [Support/support_bot.py]: the module-level
    dictionaries ([admin_tags], [admin_levels], [active_dialogs],
    [one_time_passwords], [admin_active_status]), the handlers that read and
    mutate them ([handle_message], [set_tag_command], [button_callback],
    [transfer_client], ...), [safe_send_message] with its table-mutating
    error paths, and the backup rotation of [DatabaseConnection]; further
    the class [Cache], the password sweep of [cleanup_tasks],
    [promote_admin_command], [list_admins_command] and the restore from the
    latest backup.

    Modelling conventions.
    - A Python [dict] is an insertion-ordered association list with unique
      keys ([Dict.t]): the handlers iterate [items()] and [break] at the first
      match, so the order is observable.
    - Telegram ids are [Z]; texts and file names are byte strings.
    - A [datetime] is a number of microseconds; [total_seconds()] is the
      binary64 quotient by 10^6 ([Double]). Its comparison with 86400 is
      the comparison of the difference with 86400 * 10^6
      ([not_expired_exact]); the comparison with the time-to-live of a
      cache is kept as a comparison of doubles.
    - A handler is a computation over the in-memory state and an event log.
      Every call to the Telegram API, every [save_state()] and every direct
      database write is appended to the log in program order. The reply of
      Telegram to a call is given by an oracle [tg] that sees the whole log so
      far, so the theorems hold for every behaviour of the network.
      An exception is the result [None]; the state reached so far is kept, as
      in Python.
    - The event [SaveState snapshot] is the call of [save_state()] on that
      snapshot; the call never raises, as the source catches every error of
      the transaction. Whether the transaction commits is decided by the
      constraints of the schema ([Database.save_commits]): with two equal
      tags, or a level other than 1 and 2, both attempts of [save_state()]
      are rolled back. Faults of the storage other than a violated
      constraint are not modelled.
    - Message texts are represented by one constructor of [msg] per template
      of the source; the display names interpolated in them and the inline
      keyboards are dropped.
    - The handlers run on worker threads ([run_async=True]); the handler
      computations above are one handler running alone. The interleaving of
      two take-client handlers is modelled separately, by a step relation
      on the shared table ([TakeClient]). *)

From Stdlib Require Import ZArith List Bool String Ascii Lia Permutation Sorted OrderedTypeEx.
Import ListNotations.
Local Open Scope Z_scope.

Set Implicit Arguments.

(** ** Keys with a boolean equality *)

Class EqDec (K : Type) := {
  eqb : K -> K -> bool;
  eqb_spec : forall x y, reflect (x = y) (eqb x y)
}.

#[export] Instance EqDec_Z : EqDec Z := {| eqb := Z.eqb; eqb_spec := Z.eqb_spec |}.
#[export] Instance EqDec_string : EqDec string :=
  {| eqb := String.eqb; eqb_spec := String.eqb_spec |}.

(** ** Python dictionaries *)

Module Dict.
Section Ops.
Context {K V : Type} `{EqDec K}.

Definition t := list (K * V).

(** [d.get(k)] *)
Fixpoint get (d : t) (k : K) : option V :=
  match d with
  | [] => None
  | (k', v) :: r => if eqb k' k then Some v else get r k
  end.

(** [k in d] *)
Definition contains (d : t) (k : K) : bool :=
  match get d k with Some _ => true | None => false end.

(** [d[k] = v]: an existing key keeps its position, a new one goes last. *)
Fixpoint set (d : t) (k : K) (v : V) : t :=
  match d with
  | [] => [(k, v)]
  | (k', v') :: r => if eqb k' k then (k', v) :: r else (k', v') :: set r k v
  end.

(** [del d[k]]; every [del] of the source is guarded by [k in d]. *)
Fixpoint del (d : t) (k : K) : t :=
  match d with
  | [] => []
  | (k', v') :: r => if eqb k' k then r else (k', v') :: del r k
  end.

Definition keys (d : t) : list K := map fst d.
Definition values (d : t) : list V := map snd d.

(** [d.get(k, default)] *)
Definition get_default (d : t) (k : K) (default : V) : V :=
  match get d k with Some v => v | None => default end.

(** The representation invariant of a dictionary: one entry per key. *)
Definition wf (d : t) : Prop := NoDup (keys d).
End Ops.
Arguments t : clear implicits.
End Dict.

Arguments Dict.values {K V} d : simpl never.
Arguments Dict.keys {K V} d : simpl never.
Arguments Dict.contains {K V _} d k : simpl never.
Arguments Dict.get_default {K V _} d k default : simpl never.

(** ** The global state *)

Definition datetime := Z.

Record State := mkState {
  admin_tags : Dict.t Z string;
  admin_levels : Dict.t Z Z;
  active_dialogs : Dict.t Z Z;
  one_time_passwords : Dict.t string datetime;
  admin_active_status : Dict.t Z bool
}.

Definition with_active_dialogs (s : State) d :=
  mkState (admin_tags s) (admin_levels s) d (one_time_passwords s) (admin_active_status s).
Definition with_one_time_passwords (s : State) d :=
  mkState (admin_tags s) (admin_levels s) (active_dialogs s) d (admin_active_status s).
Definition with_admin_active_status (s : State) d :=
  mkState (admin_tags s) (admin_levels s) (active_dialogs s) (one_time_passwords s) d.

(** ** Messages and events *)

(** One constructor per message template of the source. *)
Inductive msg :=
| MsgAdminReply (tag text : string)   (* "Ответ #tag ..." forwarded to the client *)
| MsgSendToClientFailed               (* "Ошибка при отправке сообщения клиенту!" *)
| MsgAdminAway (tag : string)         (* "Администратор #tag сейчас не на месте..." *)
| MsgAdminBusy (tag : string)         (* "Администратор #tag сейчас занят другим диалогом..." *)
| MsgAdminSelected (tag : string)     (* "Вы выбрали администратора #tag..." *)
| MsgClientChoseYou                   (* "Клиент ... выбрал вас как администратора!" *)
| MsgAdminNotFound                    (* "Администратор не найден..." *)
| MsgFromClient (text : string)       (* "Сообщение от ...: text" *)
| MsgNewClientMessage (client : Z) (text : string) (* "Новое сообщение от ..." with the take_client button *)
| MsgReceived                         (* "Ваше сообщение получено!..." *)
| MsgHandlerError                     (* "Произошла ошибка при обработке сообщения..." *)
| MsgSetTagUsage                      (* "Использование: /set_tag <пароль> <тег>" *)
| MsgTagSet (tag : string)            (* "Тег установлен: tag. Теперь вы администратор 1-го уровня." *)
| MsgSaveError                        (* "Произошла ошибка при сохранении данных..." *)
| MsgPasswordExpired                  (* "Пароль истек!..." *)
| MsgInvalidPassword                  (* "Неверный пароль!" *)
| MsgPasswordGenerated (password : string)
| MsgPromoteInfo
| MsgClientAlreadyTaken               (* "Клиент уже занят другим администратором!" *)
| MsgYouTookClient                    (* "Вы взяли клиента ..." *)
| MsgAdminJoined                      (* "Администратор подключился к диалогу!..." *)
| MsgConfirmClose                     (* "Вы уверены, что хотите завершить диалог...?" *)
| MsgNoActiveDialogs                  (* "У вас нет активных диалогов!" *)
| MsgDialogFinished                   (* "Диалог завершен. Спасибо за обращение!" *)
| MsgDialogClosed                     (* "Диалог с ... завершен!" *)
| MsgNothingToTransfer               (* "У вас нет активных диалогов для передачи!" *)
| MsgChooseTarget                     (* "Выберите администратора, которому хотите передать клиента:" *)
| MsgNoDialogAnymore                  (* "У вас больше нет активного диалога для передачи!" *)
| MsgTargetBusy                       (* "Выбранный администратор уже занят другим диалогом!..." *)
| MsgTransferredToAdmin (tag : string) (* to the client: "Ваш диалог был передан администратору #tag" *)
| MsgClientHandedToYou                (* to the target: "Вам был передан клиент ..." *)
| MsgTransferDone (tag : string)      (* to the initiator: "Клиент ... успешно передан ..." *)
| MsgTransferError                    (* "Произошла ошибка при передаче клиента!" *)
| MsgTransferCancelled                (* "Передача клиента отменена" *)
| MsgAdminPanel (active : bool).      (* "Панель администратора. Ваш статус: ..." *)

Inductive event :=
| Answer                                   (* query.answer() *)
| GetChat (id : Z)                         (* bot.get_chat(id) *)
| Send (chat : Z) (m : msg)                (* bot.send_message(chat_id=chat, ...) *)
| Edit (chat : Z) (m : msg)                (* bot.edit_message_text(chat_id=chat, ...) *)
| EditMarkup (chat : Z)                    (* bot.edit_message_reply_markup(chat_id=chat, ...) *)
| SaveState (snapshot : State)             (* save_state() is called in this state of the tables *)
| DbRegister (user : Z) (tag : string)     (* the INSERT OR REPLACE statements of set_tag_command *)
| History (sender receiver : Z) (text : string) (* save_message_to_history *)
| HistoryRewrite (old new : Z).            (* the UPDATEs of dialog_history after a chat migration *)

(** What Telegram answers to a call. *)
Inductive reply :=
| Ok
| Migrated (new_chat_id : option Z)   (* telegram.error.ChatMigrated *)
| Blocked                             (* telegram.error.Unauthorized *)
| Failed.                             (* any other TelegramError *)


Definition is_save (e : event) : bool :=
  match e with SaveState _ => true | _ => false end.

(** ** Handlers as computations *)

Record world := mkWorld { mem : State; log : list event }.

(** [None] is a raised exception. *)
Definition M (A : Type) := world -> option A * world.

Definition ret {A} (a : A) : M A := fun w => (Some a, w).
Definition bind {A B} (m : M A) (f : A -> M B) : M B :=
  fun w => match m w with
           | (Some a, w') => f a w'
           | (None, w') => (None, w')
           end.
(** [try: m except: h] *)
Definition catch {A} (m : M A) (h : M A) : M A :=
  fun w => match m w with
           | (Some a, w') => (Some a, w')
           | (None, w') => h w'
           end.
Definition get_state : M State := fun w => (Some (mem w), w).
Definition put_state (s : State) : M unit := fun w => (Some tt, mkWorld s (log w)).
Definition emit (e : event) : M unit := fun w => (Some tt, mkWorld (mem w) (log w ++ [e])).

Declare Scope handler_scope.
Delimit Scope handler_scope with handler.
Notation "x <- m ;; k" := (bind m (fun x => k))
  (at level 100, m at next level, right associativity) : handler_scope.
Notation "m ;; k" := (bind m (fun _ => k))
  (at level 100, right associativity) : handler_scope.
Local Open Scope handler_scope.

(** A computation only appends to the log. *)
Definition extends {A} (m : M A) : Prop :=
  forall w, exists rest, log (snd (m w)) = log w ++ rest.

(** [datetime.now() - issued], [.total_seconds() <= 86400] *)
Definition microseconds_per_day : Z := 86400 * 1000000.
Definition not_expired (now issued : datetime) : bool :=
  now - issued <=? microseconds_per_day.

(** [True] for a non-zero integer: the source tests ids with [if admin_id:]. *)
Definition truthy (id : option Z) : bool :=
  match id with Some a => negb (a =? 0) | None => false end.

Section Handlers.

(** The network: the reply to a call, given everything logged before it. *)
Variable tg : list event -> event -> reply.

(** A call of [context.bot]: logged, raises unless Telegram accepts it. *)
Definition call (e : event) : M unit :=
  fun w => let w' := mkWorld (mem w) (log w ++ [e]) in
           match tg (log w) e with
           | Ok => (Some tt, w')
           | _ => (None, w')
           end.

(** [save_state()]: the call, with the state it is to write. The function
    catches its own errors, so the handler goes on in every case; what the
    call leaves in the database is [Database.committed_dialogs]. *)
Definition save_state : M unit :=
  s <- get_state ;; emit (SaveState s).

(** [save_message_to_history] *)
Definition save_message_to_history (sender receiver : Z) (text : string) : M unit :=
  emit (History sender receiver text).

(** The first admin whose dialog is with [chat_id], as the loops
    [for admin_id, client in active_dialogs.items(): if client == chat_id]
    find it. *)
Fixpoint admin_of_client (d : Dict.t Z Z) (chat_id : Z) : option Z :=
  match d with
  | [] => None
  | (admin, client) :: r => if client =? chat_id then Some admin else admin_of_client r chat_id
  end.

(** [safe_send_message(bot, chat_id, text)]: returns whether a message
    object came back. It never raises; on [ChatMigrated] and
    [Unauthorized] it rewrites [active_dialogs]. *)
Definition safe_send_message (chat_id : Z) (text : msg) : M bool :=
  fun w =>
    let w1 := mkWorld (mem w) (log w ++ [Send chat_id text]) in
    match tg (log w) (Send chat_id text) with
    | Ok => (Some true, w1)
    | Migrated new =>
        if truthy new then
          match new with
          | Some new_chat_id =>
              ((s <- get_state ;;
                match admin_of_client (active_dialogs s) chat_id with
                | Some admin_id =>
                    put_state (with_active_dialogs s
                                 (Dict.set (active_dialogs s) admin_id new_chat_id)) ;;
                    save_state
                | None => ret tt
                end) ;;
               emit (HistoryRewrite chat_id new_chat_id) ;;
               catch (call (Send new_chat_id text) ;; ret true) (ret false)) w1
          | None => (Some false, w1)
          end
        else (Some false, w1)
    | Blocked =>
        (s <- get_state ;;
         match admin_of_client (active_dialogs s) chat_id with
         | Some admin_id =>
             put_state (with_active_dialogs s (Dict.del (active_dialogs s) admin_id)) ;;
             save_state ;; ret false
         | None => ret false
         end) w1
    | Failed => (Some false, w1)
    end.

(** [set_tag_command]: [/set_tag <password> <tag>] sent by [user_id] in
    chat [chat_id] at time [now]. *)
Definition set_tag_command (now : datetime) (user_id chat_id : Z) (args : list string) : M unit :=
  match args with
  | [password; tag] =>
      s <- get_state ;;
      match Dict.get (one_time_passwords s) password with
      | Some issued =>
          if not_expired now issued then
            put_state
              (mkState (Dict.set (admin_tags s) user_id tag)
                       (Dict.set (admin_levels s) user_id 1)
                       (active_dialogs s)
                       (Dict.del (one_time_passwords s) password)
                       (Dict.set (admin_active_status s) user_id true)) ;;
            catch (emit (DbRegister user_id tag) ;;
                   call (Send chat_id (MsgTagSet tag)))
                  (call (Send chat_id MsgSaveError))
          else
            put_state (with_one_time_passwords s (Dict.del (one_time_passwords s) password)) ;;
            call (Send chat_id MsgPasswordExpired)
      | None => call (Send chat_id MsgInvalidPassword)
      end
  | _ => call (Send chat_id MsgSetTagUsage)
  end.

(** *** handle_message *)

(** [str.lower()] of Python, left abstract. *)
Variable lower : string -> string.

(** The outcome of the loop over [admin_tags.items()] that looks for
    [requested_tag]: it stops at the first admin whose lowered tag matches,
    and answers at once when that admin is not active. *)
Inductive tag_scan :=
| ScanAway (admin_id : Z) (tag : string)
| ScanSelected (admin_id : Z)
| ScanNone.

Fixpoint find_admin_by_tag (tags : Dict.t Z string) (status : Dict.t Z bool)
         (requested_tag : string) : tag_scan :=
  match tags with
  | [] => ScanNone
  | (admin_id, tag) :: r =>
      if String.eqb (lower tag) requested_tag then
        if negb (Dict.get_default status admin_id true) then ScanAway admin_id tag
        else ScanSelected admin_id
      else find_admin_by_tag r status requested_tag
  end.

(** [handle_message]: a text [message] of [user_id] in the private chat
    [chat_id]; [admin_chat] is [ADMIN_CHAT_ID]. *)
Definition handle_message (admin_chat user_id chat_id : Z) (message : string) : M unit :=
  catch
    (s <- get_state ;;
     if Dict.contains (admin_levels s) user_id then
       match Dict.get (active_dialogs s) user_id with
       | Some client_id =>
           let tag := Dict.get_default (admin_tags s) user_id "Admin"%string in
           msg_sent <- safe_send_message client_id (MsgAdminReply tag message) ;;
           if msg_sent then save_message_to_history user_id client_id message
           else (_ <- safe_send_message chat_id MsgSendToClientFailed ;; ret tt)
       | None => ret tt
       end
     else
       let regular :=
         let admin_id := admin_of_client (active_dialogs s) chat_id in
         if truthy admin_id then
           match admin_id with
           | Some admin_id =>
               _ <- safe_send_message admin_id (MsgFromClient message) ;;
               save_message_to_history chat_id admin_id message
           | None => ret tt
           end
         else
           _ <- safe_send_message admin_chat (MsgNewClientMessage chat_id message) ;;
           _ <- safe_send_message chat_id MsgReceived ;;
           ret tt
       in
       match message with
       | String "#" rest =>
           let requested_tag := lower rest in
           match find_admin_by_tag (admin_tags s) (admin_active_status s) requested_tag with
           | ScanAway _ tag =>
               _ <- safe_send_message chat_id (MsgAdminAway tag) ;; ret tt
           | ScanSelected selected_admin =>
               if truthy (Some selected_admin) then
                 if Dict.contains (active_dialogs s) selected_admin then
                   _ <- safe_send_message chat_id (MsgAdminBusy requested_tag) ;; ret tt
                 else
                   put_state (with_active_dialogs s
                                (Dict.set (active_dialogs s) selected_admin chat_id)) ;;
                   save_state ;;
                   _ <- safe_send_message chat_id (MsgAdminSelected requested_tag) ;;
                   _ <- safe_send_message selected_admin MsgClientChoseYou ;;
                   ret tt
               else
                 _ <- safe_send_message chat_id MsgAdminNotFound ;; ret tt
           | ScanNone =>
               _ <- safe_send_message chat_id MsgAdminNotFound ;; ret tt
           end
       | _ => regular
       end)
    (_ <- safe_send_message chat_id MsgHandlerError ;; ret tt).

(** *** transfer_client *)

Definition transfer_client (user_id chat_id target_admin_id : Z) : M unit :=
  s <- get_state ;;
  match Dict.get (active_dialogs s) user_id with
  | None => call (Edit chat_id MsgNoDialogAnymore)
  | Some client_id =>
      if Dict.contains (active_dialogs s) target_admin_id then
        call (Edit chat_id MsgTargetBusy) ;;
        call (EditMarkup chat_id)
      else
        catch
          (call (GetChat target_admin_id) ;;
           let target_admin_tag := Dict.get_default (admin_tags s) target_admin_id "Admin"%string in
           call (GetChat client_id) ;;
           put_state (with_active_dialogs s
                        (Dict.set (Dict.del (active_dialogs s) user_id)
                                  target_admin_id client_id)) ;;
           save_state ;;
           call (Send client_id (MsgTransferredToAdmin target_admin_tag)) ;;
           call (Send target_admin_id MsgClientHandedToYou) ;;
           call (Edit chat_id (MsgTransferDone target_admin_tag)))
          (call (Edit chat_id MsgTransferError))
  end.

(** *** toggle_activity_status and update_admin_panel *)

Definition toggle_activity_status (user_id : Z) : M unit :=
  s <- get_state ;;
  if negb (Dict.contains (admin_levels s) user_id) then ret tt
  else
    let current_status := Dict.get_default (admin_active_status s) user_id true in
    put_state (with_admin_active_status s
                 (Dict.set (admin_active_status s) user_id (negb current_status))) ;;
    save_state.

(** Reached from a button press, so the panel message is edited. *)
Definition update_admin_panel (user_id chat_id : Z) : M unit :=
  s <- get_state ;;
  call (Edit chat_id (MsgAdminPanel (Dict.get_default (admin_active_status s) user_id true))).

(** *** button_callback *)

(** [query.data], decoded: the source compares the string with the button
    names and reads the id after the prefix with [int(data.split("_")[k])].
    [OtherButton] stands for the report buttons ("monitor", "stats"),
    which read the state and never write it, and for any unknown string. *)
Inductive callback_data :=
| GeneratePassword              (* "generate_password" *)
| PromoteInfo                   (* "promote_info" *)
| TakeClient (client_id : Z)    (* "take_client_<id>" *)
| CloseDialog                   (* "close_dialog" *)
| ConfirmClose                  (* "confirm_close" *)
| TransferClient                (* "transfer_client" *)
| Transfer (target_admin_id : Z) (* "transfer_<id>" *)
| CancelTransfer                (* "cancel_transfer" *)
| ToggleStatus                  (* "toggle_status" *)
| OtherButton.

(** [button_callback]: [user_id] presses a button of a message in chat
    [chat_id] at time [now]; [fresh] is what [generate_one_time_password()]
    would return. *)
Definition button_callback (now : datetime) (fresh : string)
           (user_id chat_id : Z) (data : callback_data) : M unit :=
  call Answer ;;
  s <- get_state ;;
  match data with
  | GeneratePassword =>
      if match Dict.get (admin_levels s) user_id with Some l => l =? 2 | None => false end then
        put_state (with_one_time_passwords s (Dict.set (one_time_passwords s) fresh now)) ;;
        call (Send chat_id (MsgPasswordGenerated fresh))
      else ret tt
  | PromoteInfo =>
      if match Dict.get (admin_levels s) user_id with Some l => l =? 2 | None => false end then
        call (Send chat_id MsgPromoteInfo)
      else ret tt
  | TakeClient client_id =>
      catch (call (GetChat client_id)) (ret tt) ;;
      if existsb (Z.eqb client_id) (Dict.values (active_dialogs s)) then
        call (Edit chat_id MsgClientAlreadyTaken)
      else
        put_state (with_active_dialogs s (Dict.set (active_dialogs s) user_id client_id)) ;;
        call (Edit chat_id MsgYouTookClient) ;;
        call (Send client_id MsgAdminJoined)
  | CloseDialog =>
      match Dict.get (active_dialogs s) user_id with
      | Some client_id =>
          catch (call (GetChat client_id)) (ret tt) ;;
          call (Edit chat_id MsgConfirmClose)
      | None => call (Edit chat_id MsgNoActiveDialogs)
      end
  | ConfirmClose =>
      match Dict.get (active_dialogs s) user_id with
      | Some client_id =>
          catch (call (GetChat client_id)) (ret tt) ;;
          put_state (with_active_dialogs s (Dict.del (active_dialogs s) user_id)) ;;
          call (Send client_id MsgDialogFinished) ;;
          call (Edit chat_id MsgDialogClosed)
      | None => ret tt
      end
  | TransferClient =>
      if negb (Dict.contains (active_dialogs s) user_id) then
        call (Edit chat_id MsgNothingToTransfer)
      else call (Edit chat_id MsgChooseTarget)
  | Transfer target_admin_id => transfer_client user_id chat_id target_admin_id
  | CancelTransfer => call (Edit chat_id MsgTransferCancelled)
  | ToggleStatus =>
      toggle_activity_status user_id ;;
      update_admin_panel user_id chat_id
  | OtherButton => ret tt
  end.

End Handlers.

(** Running a handler from a state with an empty log. *)
Definition run {A} (m : M A) (s : State) : option A * world := m (mkWorld s []).
Definition state_after {A} (m : M A) (s : State) : State := mem (snd (run m s)).
Definition log_of {A} (m : M A) (s : State) : list event := log (snd (run m s)).

(** A network on which every call succeeds. *)
Definition reliable : list event -> event -> reply := fun _ _ => Ok.

(** [str.lower()] on ASCII letters. *)
Definition ascii_lower (c : ascii) : ascii :=
  let n := nat_of_ascii c in
  if andb (Nat.leb 65 n) (Nat.leb n 90) then ascii_of_nat (n + 32) else c.
Fixpoint lower_ascii (s : string) : string :=
  match s with
  | EmptyString => EmptyString
  | String c r => String (ascii_lower c) (lower_ascii r)
  end.

(** ** Backups of the database file *)

Module DatabaseConnection.

(** The files the backup code looks at: whether [DB_PATH] exists, and the
    names in [BACKUP_DIR] as [os.listdir] returns them. *)
Record files := mkFiles { db_exists : bool; backup_dir : list string }.

(** File operations that were carried out, in order. *)
Inductive io :=
| Copy (name : string)      (* shutil.copy2(db_path, BACKUP_DIR/name) *)
| Remove (name : string)    (* os.remove(BACKUP_DIR/name) *)
| Connect.                  (* sqlite3.connect(DB_PATH) *)

(** [s.endswith(suffix)] *)
Definition endswith (s suffix : string) : bool :=
  let n := String.length s in
  let m := String.length suffix in
  (Nat.leb m n && String.eqb (substring (n - m) m s) suffix)%bool.

Definition is_db (f : string) : bool := endswith f ".db".

(** [f'support_bot_backup_{stamp}.db'], [stamp] being
    [datetime.now().strftime("%Y%m%d_%H%M%S")]. *)
Definition backup_name (stamp : string) : string :=
  ("support_bot_backup_" ++ stamp ++ ".db")%string.

(** [sorted(l)] on strings: ascending in the order of [str], which on
    UTF-8 bytes is [String.leb]. *)
Fixpoint insert (x : string) (l : list string) : list string :=
  match l with
  | [] => [x]
  | y :: r => if String.leb x y then x :: l else y :: insert x r
  end.
Definition sorted (l : list string) : list string := fold_right insert [] l.

(** The order of file names: [a <= b] on [str]. *)
Definition name_le (a b : string) : Prop := String.leb a b = true.

(** [l[:-n]] and [l[-n:]] for [n > 0] *)
Definition all_but_last {A} (n : nat) (l : list A) : list A := firstn (List.length l - n) l.
Definition last_n {A} (n : nat) (l : list A) : list A := skipn (List.length l - n) l.

(** The listing of a directory after [shutil.copy2(src, dir/name)]: an
    existing file of that name is overwritten. *)
Definition copied (name : string) (dir : list string) : list string :=
  if existsb (String.eqb name) dir then dir else dir ++ [name].

Section Faults.
(** Whether the copy, and the removal of a given file, go through. *)
Variable copy_ok : bool.
Variable remove_ok : string -> bool.

(** [for old_backup in olds: os.remove(...)]; a failing removal raises
    and ends the loop. *)
Fixpoint remove_each (olds : list string) (dir : list string) : list string * list io :=
  match olds with
  | [] => (dir, [])
  | f :: r =>
      if remove_ok f then
        let '(dir', l) := remove_each r (remove string_dec f dir) in
        (dir', Remove f :: l)
      else (dir, [])
  end.

(** [DatabaseConnection._create_backup] *)
Definition _create_backup (stamp : string) (fs : files) : files * list io :=
  if db_exists fs then
    let name := backup_name stamp in
    if copy_ok then
      let dir1 := copied name (backup_dir fs) in
      let backups := sorted (filter is_db dir1) in
      let '(dir2, l) := remove_each (all_but_last 5 backups) dir1 in
      (mkFiles true dir2, Copy name :: l)
    else (fs, [])
  else (fs, []).

End Faults.

End DatabaseConnection.

(** ** Two take-client handlers on worker threads

    [button_callback] is registered with [run_async=True] on an [Updater]
    with 8 workers, and no lock is taken anywhere in the source. Of the
    take-client branch, two statements touch the table: the test
    [client_id in active_dialogs.values()] and the assignment
    [active_dialogs[user_id] = client_id]. Each is one step here; a schedule
    says which handler moves next. *)

Module TakeClient.

Inductive pc :=
| AtCheck                  (* before [if client_id in active_dialogs.values()] *)
| AtAssign                 (* before [active_dialogs[user_id] = client_id] *)
| Finished (took : bool).  (* [false]: answered "client already taken" *)

Record handler := mkHandler { user_id : Z; client_id : Z; at_pc : pc }.

Definition step (h : handler) (d : Dict.t Z Z) : handler * Dict.t Z Z :=
  match at_pc h with
  | AtCheck =>
      if existsb (Z.eqb (client_id h)) (Dict.values d)
      then (mkHandler (user_id h) (client_id h) (Finished false), d)
      else (mkHandler (user_id h) (client_id h) AtAssign, d)
  | AtAssign =>
      (mkHandler (user_id h) (client_id h) (Finished true),
       Dict.set d (user_id h) (client_id h))
  | Finished _ => (h, d)
  end.

Inductive thread := First | Second.

Record config := mkConfig { first : handler; second : handler; table : Dict.t Z Z }.

Definition sched (c : config) (t : thread) : config :=
  match t with
  | First => let '(h, d) := step (first c) (table c) in mkConfig h (second c) d
  | Second => let '(h, d) := step (second c) (table c) in mkConfig (first c) h d
  end.

Definition exec (schedule : list thread) (c : config) : config :=
  fold_left sched schedule c.

(** Admins [a] and [b] both press the button of client [c]. *)
Definition start (a b c : Z) (d : Dict.t Z Z) : config :=
  mkConfig (mkHandler a c AtCheck) (mkHandler b c AtCheck) d.

Definition took (h : handler) : option bool :=
  match at_pc h with Finished r => Some r | _ => None end.

(** Both handlers are done, one took the client and the other was refused. *)
Definition exactly_one_succeeds (c : config) : Prop :=
  (took (first c) = Some true /\ took (second c) = Some false) \/
  (took (first c) = Some false /\ took (second c) = Some true).

End TakeClient.

(** ** The database behind [save_state()] *)

Module Database.

(** No two equal strings: [tag TEXT UNIQUE NOT NULL] of table [admin_tags]
    (the column has the default collation, so equality is exact). *)
Fixpoint distinct (l : list string) : bool :=
  match l with
  | [] => true
  | x :: r => negb (existsb (String.eqb x) r) && distinct r
  end.

(** [save_state()] opens a transaction, empties the four tables and
    inserts the rows of the four dictionaries with plain [INSERT]s. The
    admin ids are the keys of a dictionary, so the primary keys cannot
    clash; they are ids of Telegram and fit an SQLite integer; the
    connection of [save_state()] does not switch foreign keys on. What can
    fail is the [UNIQUE] tag and [CHECK (level IN (1, 2))]. On such a
    failure the transaction is rolled back, the second attempt repeats the
    same inserts and is rolled back as well: the snapshot is not written. *)
Definition save_commits (snapshot : State) : bool :=
  distinct (Dict.values (admin_tags snapshot)) &&
  forallb (fun level => (level =? 1) || (level =? 2)) (Dict.values (admin_levels snapshot)).

(** The rows of table [active_dialogs] as the last [save_state()] of a log
    committed them; [None] when the log has no such call or the last one
    was rolled back: the file then holds what an earlier call committed or,
    after [_restore_from_backup()], what the latest backup held, and
    nothing is claimed about it. No other statement of the handlers writes
    this table. *)
Definition after_event (db : option (Dict.t Z Z)) (e : event) : option (Dict.t Z Z) :=
  match e with
  | SaveState snapshot =>
      if save_commits snapshot then Some (active_dialogs snapshot) else None
  | _ => db
  end.

Definition committed_dialogs (log : list event) : option (Dict.t Z Z) :=
  fold_left after_event log None.



End Database.

(** ** State predicates *)

(** The registry part of the state: everything but the table of dialogs. *)
Definition same_registry (s s' : State) : Prop :=
  admin_tags s' = admin_tags s /\
  admin_levels s' = admin_levels s /\
  one_time_passwords s' = one_time_passwords s /\
  admin_active_status s' = admin_active_status s.

(** A computation keeps a property of the state. *)
Definition keeps {A} (P : State -> Prop) (m : M A) : Prop :=
  forall w, P (mem w) -> P (mem (snd (m w))).

(** A computation returns normally. *)
Definition never_raises {A} (m : M A) : Prop :=
  forall w, fst (m w) <> None.

(** Every level in the registry is 1 or 2, as the schema of [admin_levels]
    requires ([CHECK (level IN (1, 2))]). *)
Definition levels_valid (s : State) : Prop :=
  forall a l, Dict.get (admin_levels s) a = Some l -> l = 1 \/ l = 2.

(** ** The password sweep of [cleanup_tasks] *)

(** One pass of the loop of [cleanup_tasks], as far as the state goes: the
    passwords issued more than 86400 seconds before [current_time] are
    collected, then deleted one by one. (The pass also empties the message
    queue and the name caches, which are not part of [State].) *)
Definition expired_passwords (current_time : datetime) (d : Dict.t string datetime)
  : list string :=
  map fst (filter (fun e => microseconds_per_day <? current_time - snd e) d).

Definition sweep_passwords (current_time : datetime) (s : State) : State :=
  with_one_time_passwords s
    (fold_left (fun d pwd => Dict.del d pwd)
               (expired_passwords current_time (one_time_passwords s))
               (one_time_passwords s)).

(** ** Doubles: [timedelta.total_seconds()] *)

(** [total_seconds()] divides the number of microseconds of the difference
    by 10^6 with Python's true division of integers, which returns the
    binary64 number nearest to the quotient, ties going to the even
    mantissa. The differences of two datetimes lie between 10^-6 and
    10^14 seconds in size, far inside the exponent range of binary64, so
    the exponent is left unbounded here. *)
Module Double.

(** The finite number [mantissa * 2 ^ exponent]. *)
Record t := mk { mantissa : Z; exponent : Z }.

(** The integer nearest to [n / d], for [0 < d]; ties go to the even one. *)
Definition round_half_even (n d : Z) : Z :=
  let q := n / d in
  let r := n mod d in
  if 2 * r <? d then q
  else if d <? 2 * r then q + 1
  else if Z.even q then q else q + 1.

(** The integer part of the binary logarithm of [n / d], for [0 < n] and
    [0 < d]. *)
Definition log2_quot (n d : Z) : Z :=
  let k := Z.log2 n - Z.log2 d in
  if (if 0 <=? k then n <? d * 2 ^ k else n * 2 ^ (- k) <? d) then k - 1 else k.

(** [n / d] for [0 < n] and [0 < d]: the quotient rounded to 53 bits. *)
Definition true_divide_pos (n d : Z) : t :=
  let e := log2_quot n d - 52 in
  mk (if 0 <=? e then round_half_even n (d * 2 ^ e)
      else round_half_even (n * 2 ^ (- e)) d) e.

(** [n / d] for [0 < d]. *)
Definition true_divide (n d : Z) : t :=
  if n =? 0 then mk 0 0
  else if 0 <? n then true_divide_pos n d
  else let x := true_divide_pos (- n) d in mk (- mantissa x) (exponent x).

(** [x < n], [x >= n], [x <= n] and [x > n] for a double [x] and an [int]
    [n]: Python compares the two numbers exactly. *)
Definition lt_int (x : t) (n : Z) : bool :=
  if 0 <=? exponent x then mantissa x * 2 ^ exponent x <? n
  else mantissa x <? n * 2 ^ (- exponent x).

Definition ge_int (x : t) (n : Z) : bool :=
  if 0 <=? exponent x then n <=? mantissa x * 2 ^ exponent x
  else n * 2 ^ (- exponent x) <=? mantissa x.

Definition le_int (x : t) (n : Z) : bool :=
  if 0 <=? exponent x then mantissa x * 2 ^ exponent x <=? n
  else mantissa x <=? n * 2 ^ (- exponent x).

Definition gt_int (x : t) (n : Z) : bool :=
  if 0 <=? exponent x then n <? mantissa x * 2 ^ exponent x
  else n * 2 ^ (- exponent x) <? mantissa x.

End Double.

(** [delta.total_seconds()] of a difference of [delta] microseconds. *)
Definition total_seconds (delta : Z) : Double.t := Double.true_divide delta 1000000.

(** ** The class [Cache] *)

Module Cache.
Section WithValue.
Variable V : Type.

(** [self._cache] maps a key to [(value, timestamp)]; [self._ttl] is in
    seconds. *)
Record t := mk { entries : Dict.t string (V * datetime); ttl : Z }.

(** The time-to-live values, up to 2^34 seconds, for which the rounding of
    [total_seconds()] does not show: an entry is live exactly until
    [ttl * 10^6] microseconds have passed. The caches of the source have
    3600 seconds. *)
Definition exact_range (c : t) : Prop := 0 <= ttl c <= 2 ^ 34.

(** [(datetime.now() - timestamp).total_seconds() < self._ttl] *)
Definition live (c : t) (now timestamp : datetime) : bool :=
  Double.lt_int (total_seconds (now - timestamp)) (ttl c).

(** [Cache.get], called at time [now]: the value and the cache after the
    call (an expired entry is deleted). *)
Definition get (now : datetime) (c : t) (key : string) : option V * t :=
  match Dict.get (entries c) key with
  | Some (value, timestamp) =>
      if live c now timestamp then (Some value, c)
      else (None, mk (Dict.del (entries c) key) (ttl c))
  | None => (None, c)
  end.

(** [Cache.set], called at time [now]. *)
Definition set (now : datetime) (c : t) (key : string) (value : V) : t :=
  mk (Dict.set (entries c) key (value, now)) (ttl c).

(** [Cache.clear], called at time [now]. *)
Definition clear (now : datetime) (c : t) : t :=
  let expired :=
    map fst (filter (fun e => Double.ge_int (total_seconds (now - snd (snd e))) (ttl c))
                    (entries c)) in
  mk (fold_left (fun d k => Dict.del d k) expired (entries c)) (ttl c).

End WithValue.
Arguments mk {V} _ _.
Arguments entries {V} _.
Arguments ttl {V} _.
Arguments exact_range {V} _.
Arguments live {V} _ _ _.
Arguments get {V} _ _ _.
Arguments set {V} _ _ _ _.
Arguments clear {V} _ _.
End Cache.

(** ** promote_admin_command *)

Module Promote.

(** The answers of [/promote]. *)
Inductive answer :=
| OnlyLevel2          (* "Только администраторы 2-го ранга могут повышать..." *)
| Usage               (* "Использование: /promote <user_id>" *)
| BadUserId           (* "Неверный формат ID пользователя!" *)
| NoUserInfo          (* "Не удалось получить информацию о пользователе!" *)
| NotAnAdmin          (* "Указанный пользователь не является администратором!" *)
| AlreadyLevel2       (* "Этот администратор уже имеет 2-й ранг!" *)
| Promoted (target_id : Z). (* "Администратор ... повышен до 2-го ранга!" *)

(** What the handler does, in order. *)
Inductive step :=
| LookUp (target_id : Z)            (* bot.get_chat(target_id) *)
| Save (snapshot : State)           (* save_state() *)
| Reply (chat_id : Z) (a : answer)  (* bot.send_message(chat_id=update.effective_chat.id, ...) *)
| Congratulate (target_id : Z).     (* bot.send_message(chat_id=target_id, ...) *)

Section Command.
(** [int(args[0])]: [None] is a [ValueError]. *)
Variable parse_int : string -> option Z.
(** Whether Telegram accepts a call, given the steps made before it. *)
Variable accepts : list step -> step -> bool.

Definition level_is_2 (s : State) (user_id : Z) : bool :=
  match Dict.get (admin_levels s) user_id with Some l => l =? 2 | None => false end.

(** [promote_admin_command]: [/promote <args>] sent by [user_id] in chat
    [chat_id]. The result is the state after the command and the steps
    attempted; a refused [Reply] raises, which ends the handler. *)
Definition promote_admin_command (user_id chat_id : Z) (args : list string) (s : State)
  : State * list step :=
  if negb (level_is_2 s user_id) then (s, [Reply chat_id OnlyLevel2])
  else
    match args with
    | [arg] =>
        match parse_int arg with
        | None => (s, [Reply chat_id BadUserId])
        | Some target_id =>
            if negb (accepts [] (LookUp target_id)) then
              (s, [LookUp target_id; Reply chat_id NoUserInfo])
            else if negb (Dict.contains (admin_levels s) target_id) then
              (s, [LookUp target_id; Reply chat_id NotAnAdmin])
            else if level_is_2 s target_id then
              (s, [LookUp target_id; Reply chat_id AlreadyLevel2])
            else
              let s' := mkState (admin_tags s)
                                (Dict.set (admin_levels s) target_id 2)
                                (active_dialogs s)
                                (one_time_passwords s)
                                (Dict.set (admin_active_status s) target_id true) in
              let done := [LookUp target_id; Save s'; Reply chat_id (Promoted target_id)] in
              if accepts [LookUp target_id; Save s'] (Reply chat_id (Promoted target_id))
              then (s', done ++ [Congratulate target_id])
              else (s', done)
        end
    | _ => (s, [Reply chat_id Usage])
    end.
End Command.

Definition is_save (e : step) : bool :=
  match e with Save _ => true | _ => false end.

End Promote.

(** ** list_admins_command *)

Module ListAdmins.

(** The mark in front of a tag. *)
Inductive mark :=
| InDialog   (* red: the admin is in [active_dialogs] *)
| Inactive   (* black: the admin is not active *)
| Available. (* green *)

Definition mark_of (s : State) (admin_id : Z) : mark :=
  if Dict.contains (active_dialogs s) admin_id then InDialog
  else if negb (Dict.get_default (admin_active_status s) admin_id true) then Inactive
  else Available.

(** The text of the answer: the lines, and whether the hint "write the
    hashtag of an admin" or "all admins are busy or inactive" follows. *)
Inductive listing :=
| NoAdmins
| Admins (lines : list (mark * string)) (available_admins_exist : bool).

Definition is_available (m : mark) : bool :=
  match m with Available => true | _ => false end.

(** [list_admins_command]: the loop runs over [admin_levels.keys()] and
    takes the tag from [admin_tags], "Admin" when there is none. *)
Definition list_admins_command (s : State) : listing :=
  let all_admins :=
    map (fun admin_id =>
           (mark_of s admin_id, Dict.get_default (admin_tags s) admin_id "Admin"%string))
        (Dict.keys (admin_levels s)) in
  match all_admins with
  | [] => NoAdmins
  | _ => Admins all_admins (existsb (fun l => is_available (fst l)) all_admins)
  end.

End ListAdmins.

(** ** Restoring the database from a backup *)

Module Restore.
Import DatabaseConnection.

(** [backups[-1]] of [sorted([f for f in os.listdir(BACKUP_DIR) if
    f.endswith('.db')])], when the list is not empty. *)
Definition latest_backup (dir : list string) : option string :=
  match rev (sorted (filter is_db dir)) with
  | [] => None
  | latest :: _ => Some latest
  end.

(** [DatabaseConnection._restore_from_backup]: the backup that is copied
    over the database file, if any; [copy_ok] says whether the copy goes
    through. *)
Definition _restore_from_backup (copy_ok : bool) (fs : files) : files * option string :=
  match latest_backup (backup_dir fs) with
  | Some latest =>
      if copy_ok then (mkFiles true (backup_dir fs), Some latest) else (fs, None)
  | None => (fs, None)
  end.

End Restore.

(** ** Scenarios *)

Module Scenario.
Local Open Scope string_scope.

(** Admin 1 is registered with the tag "sam"; the password "Xk3mPq9z" was
    issued at time 0. *)
Definition sam_registered : State :=
  mkState [(1, "sam")] [(1, 1)] [] [("Xk3mPq9z", 0)] [(1, true)].

(** Admin 7 has level 2 and the tag "boss"; a password was issued at time 0. *)
Definition boss_and_password : State :=
  mkState [(7, "boss")] [(7, 2)] [] [("Xk3mPq9z", 0)] [(7, true)].

Definition hour : Z := 3600 * 1000000.

(** Admins 1 ("ann") and 2 ("bob") are registered and active; admin 1 is in
    a dialog with client 100. *)
Definition ann_with_client : State :=
  mkState [(1, "ann"); (2, "bob")] [(1, 1); (2, 1)] [(1, 100)] [] [(1, true); (2, true)].

(** The same two admins, nobody in a dialog. *)
Definition all_free : State :=
  mkState [(1, "ann"); (2, "bob")] [(1, 1); (2, 1)] [] [] [(1, true); (2, true)].

(** Both admins are in a dialog. *)
Definition both_busy : State :=
  mkState [(1, "ann"); (2, "bob")] [(1, 1); (2, 1)] [(1, 100); (2, 200)] []
          [(1, true); (2, true)].

(** The chat of the admins, [ADMIN_CHAT_ID]. *)
Definition admin_chat : Z := -1000.

(** A backup directory with five backups and a note, and the database file
    in place. *)
Definition five_backups : DatabaseConnection.files :=
  DatabaseConnection.mkFiles true
    ["support_bot_backup_20240103_120000.db"; "support_bot_backup_20240101_120000.db";
     "notes.txt"; "support_bot_backup_20240105_120000.db";
     "support_bot_backup_20240102_120000.db"; "support_bot_backup_20240104_120000.db"].

End Scenario.

(** * Properties *)

(** ** Dictionaries *)

Lemma eqb_refl {K} `{EqDec K} (k : K) : eqb k k = true.
Proof. destruct (eqb_spec k k); congruence. Qed.

Lemma eqb_neq {K} `{EqDec K} (j k : K) : j <> k -> eqb j k = false.
Proof. destruct (eqb_spec j k); congruence. Qed.

Section DictFacts.
Context {K V : Type} `{EqDec K}.
Implicit Types (d : Dict.t K V) (k : K) (v : V).

Lemma get_set_same d k v : Dict.get (Dict.set d k v) k = Some v.
Proof.
  induction d as [|[k' v'] r IH]; simpl.
  - now rewrite eqb_refl.
  - destruct (eqb_spec k' k) as [->|N]; simpl.
    + now rewrite eqb_refl.
    + now rewrite (eqb_neq N).
Qed.

Lemma get_set_other d k k' v : k <> k' -> Dict.get (Dict.set d k v) k' = Dict.get d k'.
Proof.
  intros N. induction d as [|[j w] r IH]; simpl.
  - now rewrite (eqb_neq N).
  - destruct (eqb_spec j k) as [->|Nj]; simpl.
    + now rewrite (eqb_neq N).
    + now rewrite IH.
Qed.

Lemma get_None_keys d k : Dict.get d k = None <-> ~ In k (Dict.keys d).
Proof.
  induction d as [|[j w] r IH]; simpl.
  - tauto.
  - destruct (eqb_spec j k) as [->|N].
    + split; [discriminate | tauto].
    + rewrite IH. tauto.
Qed.

Lemma keys_del_incl d k j : In j (Dict.keys (Dict.del d k)) -> In j (Dict.keys d).
Proof.
  induction d as [|[i w] r IH]; simpl; auto.
  destruct (eqb i k); simpl; tauto.
Qed.

Lemma wf_del d k : Dict.wf d -> Dict.wf (Dict.del d k).
Proof.
  unfold Dict.wf. induction d as [|[i w] r IH]; simpl; auto.
  intros W. inversion W; subst.
  destruct (eqb i k); simpl; auto.
  constructor; auto. intros I. now apply keys_del_incl in I.
Qed.

Lemma get_del_same d k : Dict.wf d -> Dict.get (Dict.del d k) k = None.
Proof.
  unfold Dict.wf. induction d as [|[i w] r IH]; simpl; auto.
  intros W. inversion W; subst.
  destruct (eqb_spec i k) as [->|N]; simpl.
  - now apply get_None_keys.
  - rewrite (eqb_neq N). auto.
Qed.

Lemma get_del_other d k k' : k <> k' -> Dict.get (Dict.del d k) k' = Dict.get d k'.
Proof.
  intros N. induction d as [|[i w] r IH]; simpl; auto.
  destruct (eqb_spec i k) as [->|Ni]; simpl.
  - now rewrite (eqb_neq N).
  - now rewrite IH.
Qed.

Lemma keys_set d k v j : In j (Dict.keys (Dict.set d k v)) -> j = k \/ In j (Dict.keys d).
Proof.
  induction d as [|[i w] r IH]; simpl.
  - intuition.
  - destruct (eqb_spec i k) as [->|N]; simpl; intuition.
Qed.

Lemma wf_set d k v : Dict.wf d -> Dict.wf (Dict.set d k v).
Proof.
  unfold Dict.wf. induction d as [|[i w] r IH]; simpl.
  - intros _. repeat constructor. auto.
  - intros W. inversion W; subst.
    destruct (eqb_spec i k) as [->|N]; simpl.
    + now constructor.
    + constructor; auto. intros I. apply keys_set in I. intuition.
Qed.

Lemma values_set d k v w :
  In w (Dict.values (Dict.set d k v)) -> w = v \/ In w (Dict.values d).
Proof.
  induction d as [|[i x] r IH]; simpl.
  - intuition.
  - destruct (eqb i k); simpl; intuition.
Qed.

(** Binding a key to a value that no key has keeps the values distinct. *)
Lemma NoDup_values_set d k v :
  NoDup (Dict.values d) -> ~ In v (Dict.values d) ->
  NoDup (Dict.values (Dict.set d k v)).
Proof.
  induction d as [|[i x] r IH]; simpl.
  - intros _ _. repeat constructor. auto.
  - intros W N. inversion W; subst.
    destruct (eqb i k); simpl.
    + constructor; tauto.
    + constructor.
      * intros I. apply values_set in I. intuition.
      * apply IH; tauto.
Qed.

Lemma values_del d k w : In w (Dict.values (Dict.del d k)) -> In w (Dict.values d).
Proof.
  induction d as [|[i x] r IH]; simpl; auto.
  destruct (eqb i k); simpl; tauto.
Qed.

Lemma NoDup_values_del d k : NoDup (Dict.values d) -> NoDup (Dict.values (Dict.del d k)).
Proof.
  induction d as [|[i x] r IH]; simpl; auto.
  intros W. inversion W; subst.
  destruct (eqb i k); simpl; auto.
  constructor; auto. intros I. now apply values_del in I.
Qed.

Lemma get_In_values d k v : Dict.get d k = Some v -> In v (Dict.values d).
Proof.
  unfold Dict.values. induction d as [|[i x] r IH]; simpl; [discriminate|].
  destruct (eqb i k); [left; congruence | right; auto].
Qed.

(** With distinct values, deleting a key removes its value from the table. *)
Lemma value_gone_after_del d k v :
  NoDup (Dict.values d) -> Dict.get d k = Some v -> ~ In v (Dict.values (Dict.del d k)).
Proof.
  unfold Dict.values. induction d as [|[i x] r IH]; simpl; [discriminate|].
  intros N G. inversion N; subst.
  destruct (eqb i k); simpl.
  - congruence.
  - intros [->|I].
    + apply get_In_values in G. contradiction.
    + now apply IH.
Qed.

Lemma contains_get d k : Dict.contains d k = true <-> exists v, Dict.get d k = Some v.
Proof.
  unfold Dict.contains. destruct (Dict.get d k).
  - split; eauto.
  - split; [discriminate | intros [? ?]; discriminate].
Qed.
End DictFacts.

Lemma has_client_In (d : Dict.t Z Z) (c : Z) :
  existsb (Z.eqb c) (Dict.values d) = true <-> In c (Dict.values d).
Proof.
  rewrite existsb_exists. split.
  - intros [x [I E]]. apply Z.eqb_eq in E. now subst.
  - intros I. exists c. split; auto. apply Z.eqb_refl.
Qed.

(** ** Registration: [set_tag_command] *)

Ltac run_handler :=
  unfold state_after, log_of, run, bind, catch, call, emit, put_state, get_state, ret; simpl.

(** C6. A password redeemed more than 24 hours after it was issued is
    refused with the "expired" message and removed from
    [one_time_passwords], and nothing else changes: no tag, level or status
    is written. An unknown password is refused with the "invalid" message
    and the state is left as it was. *)
Theorem set_tag_expired_or_unknown
  (tg : list event -> event -> reply) (now : datetime) (user_id chat_id : Z)
  (password tag : string) (s : State)
  (W : Dict.wf (one_time_passwords s)) :
  (forall issued,
      Dict.get (one_time_passwords s) password = Some issued ->
      microseconds_per_day < now - issued ->
      let s' := state_after (set_tag_command tg now user_id chat_id [password; tag]) s in
      log_of (set_tag_command tg now user_id chat_id [password; tag]) s
        = [Send chat_id MsgPasswordExpired] /\
      Dict.get (one_time_passwords s') password = None /\
      s' = with_one_time_passwords s (Dict.del (one_time_passwords s) password) /\
      admin_tags s' = admin_tags s /\
      admin_levels s' = admin_levels s /\
      admin_active_status s' = admin_active_status s) /\
  (Dict.get (one_time_passwords s) password = None ->
   state_after (set_tag_command tg now user_id chat_id [password; tag]) s = s /\
   log_of (set_tag_command tg now user_id chat_id [password; tag]) s
     = [Send chat_id MsgInvalidPassword]).
Proof.
  split.
  - intros issued G Late.
    assert (E : not_expired now issued = false)
      by (unfold not_expired; apply Z.leb_gt; exact Late).
    unfold set_tag_command. run_handler. rewrite G, E. simpl.
    destruct (tg [] (Send chat_id MsgPasswordExpired)); simpl;
      (repeat split; auto; now apply get_del_same).
  - intros G. unfold set_tag_command. run_handler. rewrite G. simpl.
    destruct (tg [] (Send chat_id MsgInvalidPassword)); simpl; auto.
Qed.

Lemma set_tag_expired_or_unknown_witness :
  (let c := set_tag_command reliable (25 * Scenario.hour) 2 2 ["Xk3mPq9z"; "bob"]%string in
   log_of c Scenario.sam_registered = [Send 2 MsgPasswordExpired] /\
   Dict.get (one_time_passwords (state_after c Scenario.sam_registered)) "Xk3mPq9z"%string = None /\
   admin_tags (state_after c Scenario.sam_registered) = [(1, "sam"%string)]) /\
  (let c := set_tag_command reliable (25 * Scenario.hour) 2 2 ["nosuch"; "bob"]%string in
   state_after c Scenario.sam_registered = Scenario.sam_registered).
Proof.
  assert (W : Dict.wf (one_time_passwords Scenario.sam_registered))
    by (repeat constructor; simpl; tauto).
  pose proof (@set_tag_expired_or_unknown reliable (25 * Scenario.hour) 2 2
                "Xk3mPq9z" "bob" Scenario.sam_registered W) as [Expired _].
  pose proof (@set_tag_expired_or_unknown reliable (25 * Scenario.hour) 2 2
                "nosuch" "bob" Scenario.sam_registered W) as [_ Unknown].
  split.
  - specialize (Expired 0 eq_refl ltac:(vm_compute; reflexivity)).
    simpl in Expired. destruct Expired as (L & G & _ & T & _).
    repeat split; assumption.
  - apply (Unknown eq_refl).
Defined.

(** C10. Redeeming a valid password always registers the caller: whatever
    tag and level the caller had before (level 2 included), the tag becomes
    the requested one, the level becomes 1, the status becomes active and
    the password is removed. The handler does not look at [admin_levels] or
    [admin_tags] before writing. *)
Theorem set_tag_overwrites_registered_admin
  (tg : list event -> event -> reply) (now issued : datetime) (user_id chat_id : Z)
  (password tag : string) (s : State)
  (G : Dict.get (one_time_passwords s) password = Some issued)
  (Fresh : now - issued <= microseconds_per_day) :
  let c := set_tag_command tg now user_id chat_id [password; tag] in
  Dict.get (admin_tags (state_after c s)) user_id = Some tag /\
  Dict.get (admin_levels (state_after c s)) user_id = Some 1 /\
  Dict.get (admin_active_status (state_after c s)) user_id = Some true /\
  one_time_passwords (state_after c s) = Dict.del (one_time_passwords s) password /\
  active_dialogs (state_after c s) = active_dialogs s /\
  exists rest, log_of c s = DbRegister user_id tag :: Send chat_id (MsgTagSet tag) :: rest.
Proof.
  assert (E : not_expired now issued = true)
    by (unfold not_expired; apply Z.leb_le; exact Fresh).
  unfold set_tag_command. run_handler. rewrite G, E. simpl.
  destruct (tg [DbRegister user_id tag] (Send chat_id (MsgTagSet tag))); simpl;
    try destruct (tg _ (Send chat_id MsgSaveError)); simpl;
    rewrite !get_set_same; repeat split; eauto.
Qed.

Lemma set_tag_overwrites_registered_admin_witness :
  Dict.get (admin_levels Scenario.boss_and_password) 7 = Some 2 /\
  let c := set_tag_command reliable Scenario.hour 7 7 ["Xk3mPq9z"; "newbie"]%string in
  Dict.get (admin_tags (state_after c Scenario.boss_and_password)) 7 = Some "newbie"%string /\
  Dict.get (admin_levels (state_after c Scenario.boss_and_password)) 7 = Some 1.
Proof.
  split; [reflexivity|].
  pose proof (@set_tag_overwrites_registered_admin reliable Scenario.hour 0 7 7
                "Xk3mPq9z" "newbie" Scenario.boss_and_password eq_refl
                ltac:(vm_compute; discriminate)) as (T & L & _).
  split; assumption.
Defined.

(** C2. The handler accepts a tag that another admin holds: after admin 1
    registered as "sam", user 2 redeems a password with the tag "sam", and
    user 3 with the tag "SAM"; both are told the tag is set, and
    [admin_tags] then holds the same tag for several admins. *)
Theorem set_tag_accepts_taken_tag :
  let c := set_tag_command reliable Scenario.hour 2 2 ["Xk3mPq9z"; "sam"]%string in
  let c' := set_tag_command reliable Scenario.hour 3 3 ["Xk3mPq9z"; "SAM"]%string in
  admin_tags (state_after c Scenario.sam_registered) = [(1, "sam"); (2, "sam")]%string /\
  log_of c Scenario.sam_registered = [DbRegister 2 "sam"; Send 2 (MsgTagSet "sam")] /\
  admin_tags (state_after c' Scenario.sam_registered) = [(1, "sam"); (3, "SAM")]%string /\
  log_of c' Scenario.sam_registered = [DbRegister 3 "SAM"; Send 3 (MsgTagSet "SAM")].
Proof. repeat split. Qed.

(** ** Claiming a client *)

Ltac split_replies :=
  repeat match goal with
         | |- context [match ?f ?l ?e with Ok => _ | _ => _ end] =>
             destruct (f l e); simpl
         end.

(** The take-client button refuses a client that some admin already holds,
    and leaves the state as it was. *)
Lemma take_client_refuses_claimed_client
  (tg : list event -> event -> reply) (now : datetime) (fresh : string)
  (user_id chat_id client_id : Z) (s : State) :
  In client_id (Dict.values (active_dialogs s)) ->
  let c := button_callback tg now fresh user_id chat_id (TakeClient client_id) in
  state_after c s = s /\
  (tg [] Answer = Ok ->
   log_of c s = [Answer; GetChat client_id; Edit chat_id MsgClientAlreadyTaken]).
Proof.
  intros I. apply has_client_In in I.
  unfold button_callback. run_handler.
  destruct (tg [] Answer); simpl; try (split; [reflexivity | discriminate]).
  destruct (tg [Answer] (GetChat client_id)); simpl; rewrite I; simpl;
    split_replies; auto.
Qed.

(** The take-client button keeps the clients of the table pairwise distinct. *)
Lemma take_client_keeps_clients_distinct
  (tg : list event -> event -> reply) (now : datetime) (fresh : string)
  (user_id chat_id client_id : Z) (s : State) :
  NoDup (Dict.values (active_dialogs s)) ->
  NoDup (Dict.values (active_dialogs
           (state_after (button_callback tg now fresh user_id chat_id (TakeClient client_id)) s))).
Proof.
  intros N. unfold button_callback. run_handler.
  destruct (tg [] Answer); simpl; auto.
  destruct (existsb (Z.eqb client_id) (Dict.values (active_dialogs s))) eqn:E.
  - destruct (tg [Answer] (GetChat client_id)); simpl; split_replies; auto.
  - assert (~ In client_id (Dict.values (active_dialogs s))) as NI
        by (rewrite <- has_client_In; congruence).
    destruct (tg [Answer] (GetChat client_id)); simpl; split_replies;
      now apply NoDup_values_set.
Qed.

(** Closing a dialog keeps the clients of the table pairwise distinct. *)
Lemma confirm_close_keeps_clients_distinct
  (tg : list event -> event -> reply) (now : datetime) (fresh : string)
  (user_id chat_id : Z) (s : State) :
  NoDup (Dict.values (active_dialogs s)) ->
  NoDup (Dict.values (active_dialogs
           (state_after (button_callback tg now fresh user_id chat_id ConfirmClose) s))).
Proof.
  intros N. unfold button_callback. run_handler.
  destruct (tg [] Answer); simpl; auto.
  destruct (Dict.get (active_dialogs s) user_id) as [client|]; simpl; auto.
  destruct (tg [Answer] (GetChat client)); simpl; split_replies;
    now apply NoDup_values_del.
Qed.

(** The selection of a free admin by tag, and a second client asking for
    the same admin: the first is bound and both sides are told, the second
    is told that the admin is busy. *)
Example tag_selection_then_busy :
  let first := handle_message reliable lower_ascii Scenario.admin_chat 100 100 "#Ann" in
  let second := handle_message reliable lower_ascii Scenario.admin_chat 300 300 "#ann" in
  log_of first Scenario.all_free
    = [SaveState Scenario.ann_with_client;
       Send 100 (MsgAdminSelected "ann"); Send 1 MsgClientChoseYou] /\
  state_after second Scenario.ann_with_client = Scenario.ann_with_client /\
  log_of second Scenario.ann_with_client = [Send 300 (MsgAdminBusy "ann")].
Proof. repeat split. Qed.

(** C1. A '#tag' message breaks the invariant. Nobody is in a dialog;
    client 100 writes "#ann" and is bound to admin 1; the same client then
    writes "#bob"; admin 2 is free, so the handler binds admin 2 to client
    100 as well, and the table holds client 100 twice. *)
Theorem tag_claim_duplicates_client :
  let first := handle_message reliable lower_ascii Scenario.admin_chat 100 100 "#ann" in
  let c := handle_message reliable lower_ascii Scenario.admin_chat 100 100 "#bob" in
  state_after first Scenario.all_free = Scenario.ann_with_client /\
  NoDup (Dict.values (active_dialogs Scenario.ann_with_client)) /\
  active_dialogs (state_after c Scenario.ann_with_client) = [(1, 100); (2, 100)] /\
  ~ NoDup (Dict.values (active_dialogs (state_after c Scenario.ann_with_client))).
Proof.
  split; [|split; [|split]].
  - reflexivity.
  - repeat constructor; simpl; tauto.
  - reflexivity.
  - change (~ NoDup [100; 100]). intros N. inversion N; subst. simpl in *. tauto.
Qed.


(** C3. Each claim path makes one of the two checks and misses the other.
    The button: admin 1, in a dialog with client 100, takes client 200; the
    press is accepted and the entry of admin 1 is overwritten. The '#tag'
    path: client 100, held by admin 1, selects the free admin 2 and is
    accepted. *)
Theorem claim_paths_miss_a_check :
  let b := button_callback reliable 0 "" 1 Scenario.admin_chat (TakeClient 200) in
  let t := handle_message reliable lower_ascii Scenario.admin_chat 100 100 "#bob" in
  Dict.get (active_dialogs Scenario.ann_with_client) 1 = Some 100 /\
  active_dialogs (state_after b Scenario.ann_with_client) = [(1, 200)] /\
  log_of b Scenario.ann_with_client
    = [Answer; GetChat 200; Edit Scenario.admin_chat MsgYouTookClient; Send 200 MsgAdminJoined] /\
  active_dialogs (state_after t Scenario.ann_with_client) = [(1, 100); (2, 100)] /\
  log_of t Scenario.ann_with_client
    = [SaveState (state_after t Scenario.ann_with_client);
       Send 100 (MsgAdminSelected "bob"); Send 2 MsgClientChoseYou].
Proof. repeat split. Qed.

(** ** Persisting before notifying *)

(** The take-client button never calls [save_state()]. *)
Lemma take_client_never_saves
  (tg : list event -> event -> reply) (now : datetime) (fresh : string)
  (user_id chat_id client_id : Z) (s : State) :
  existsb is_save
    (log_of (button_callback tg now fresh user_id chat_id (TakeClient client_id)) s) = false.
Proof.
  unfold button_callback. run_handler.
  destruct (tg [] Answer); simpl; auto.
  destruct (existsb (Z.eqb client_id) (Dict.values (active_dialogs s)));
    destruct (tg [Answer] (GetChat client_id)); simpl; split_replies; reflexivity.
Qed.

(** Neither does the confirmation of a close. *)
Lemma confirm_close_never_saves
  (tg : list event -> event -> reply) (now : datetime) (fresh : string)
  (user_id chat_id : Z) (s : State) :
  existsb is_save (log_of (button_callback tg now fresh user_id chat_id ConfirmClose) s) = false.
Proof.
  unfold button_callback. run_handler.
  destruct (tg [] Answer); simpl; auto.
  destruct (Dict.get (active_dialogs s) user_id) as [client|]; simpl; auto.
  destruct (tg [Answer] (GetChat client)); simpl; split_replies; reflexivity.
Qed.

(** Every computation of the model only appends to the log. *)
Lemma extends_ret {A} (a : A) : extends (ret a).
Proof. intros w. exists []. simpl. now rewrite app_nil_r. Qed.

Lemma extends_bind {A B} (m : M A) (f : A -> M B) :
  extends m -> (forall a, extends (f a)) -> extends (bind m f).
Proof.
  intros Hm Hf w. unfold bind. destruct (Hm w) as [r1 E1].
  destruct (m w) as [[a|] w1]; simpl in *.
  - destruct (Hf a w1) as [r2 E2]. exists (r1 ++ r2). now rewrite E2, E1, app_assoc.
  - now exists r1.
Qed.

Lemma extends_catch {A} (m h : M A) : extends m -> extends h -> extends (catch m h).
Proof.
  intros Hm Hh w. unfold catch. destruct (Hm w) as [r1 E1].
  destruct (m w) as [[a|] w1]; simpl in *.
  - now exists r1.
  - destruct (Hh w1) as [r2 E2]. exists (r1 ++ r2). now rewrite E2, E1, app_assoc.
Qed.

Lemma extends_get_state : extends get_state.
Proof. intros w. exists []. simpl. now rewrite app_nil_r. Qed.

Lemma extends_put_state s : extends (put_state s).
Proof. intros w. exists []. simpl. now rewrite app_nil_r. Qed.

Lemma extends_emit e : extends (emit e).
Proof. intros w. now exists [e]. Qed.

Lemma extends_call tg e : extends (call tg e).
Proof. intros w. exists [e]. unfold call. now destruct (tg (log w) e). Qed.

Lemma extends_save_state : extends save_state.
Proof. apply extends_bind; [apply extends_get_state | intros; apply extends_emit]. Qed.

Create HintDb extends.
#[export] Hint Resolve extends_ret extends_get_state extends_put_state extends_emit
  extends_call extends_save_state : extends.

Ltac extends_step :=
  match goal with
  | |- extends (bind _ _) => apply extends_bind; [| intros ?]
  | |- extends (catch _ _) => apply extends_catch
  | |- extends (match ?x with _ => _ end) => destruct x
  | |- extends _ => solve [auto with extends]
  end.

Lemma extends_safe_send_message tg chat_id text : extends (safe_send_message tg chat_id text).
Proof.
  intros w. unfold safe_send_message.
  destruct (tg (log w) (Send chat_id text)) as [|new| |]; simpl.
  - now exists [Send chat_id text].
  - destruct (truthy new); [destruct new as [n|]|]; try now exists [Send chat_id text].
    match goal with
    | |- context [?m {| mem := mem w; log := ?l |}] =>
        assert (extends m) as X by (repeat extends_step);
        destruct (X {| mem := mem w; log := l |}) as [r E]
    end.
    exists (Send chat_id text :: r). rewrite E. simpl. now rewrite <- app_assoc.
  - match goal with
    | |- context [?m {| mem := mem w; log := ?l |}] =>
        assert (extends m) as X by (repeat extends_step);
        destruct (X {| mem := mem w; log := l |}) as [r E]
    end.
    exists (Send chat_id text :: r). rewrite E. simpl. now rewrite <- app_assoc.
  - now exists [Send chat_id text].
Qed.

#[export] Hint Resolve extends_safe_send_message : extends.

(** On the '#tag' path the new table is saved before anything is sent:
    whatever the network does, the log of a successful selection begins with
    the [save_state()] of the state that holds the new entry. *)
Lemma tag_claim_saves_first
  (tg : list event -> event -> reply) (lower : string -> string)
  (admin_chat user_id chat_id selected_admin : Z) (rest : string) (s : State) :
  Dict.contains (admin_levels s) user_id = false ->
  find_admin_by_tag lower (admin_tags s) (admin_active_status s) (lower rest)
    = ScanSelected selected_admin ->
  selected_admin <> 0 ->
  Dict.contains (active_dialogs s) selected_admin = false ->
  let s' := with_active_dialogs s (Dict.set (active_dialogs s) selected_admin chat_id) in
  exists sent,
    log_of (handle_message tg lower admin_chat user_id chat_id (String "#" rest)) s
      = SaveState s' :: sent.
Proof.
  intros NA F NZ B s'. apply Z.eqb_neq in NZ.
  unfold log_of, run, handle_message.
  unfold catch at 1, bind at 1, get_state at 1. simpl.
  rewrite NA, F. simpl. rewrite NZ, B. simpl.
  unfold bind at 1, put_state at 1. simpl.
  unfold bind at 1, save_state at 1, bind at 1, get_state, emit. simpl.
  fold s'.
  match goal with
  | |- context [?m {| mem := s'; log := [SaveState s'] |}] =>
      assert (extends m) as X by (repeat extends_step);
      destruct (X {| mem := s'; log := [SaveState s'] |}) as [r E];
      destruct (m {| mem := s'; log := [SaveState s'] |}) as [[u|] w1]
  end; simpl in *.
  - exists r. exact E.
  - match goal with
    | |- context [?h w1] =>
        assert (extends h) as Y by (repeat extends_step);
        destruct (Y w1) as [r2 E2]
    end.
    exists (r ++ r2). rewrite E2, E. reflexivity.
Qed.

(** C4. The take-client button and the confirmation of a close change the
    table and notify both sides, and [save_state()] is not called at all:
    admin 2 takes client 200, and admin 1 closes the dialog with client
    100. *)
Theorem button_claim_and_release_not_saved :
  let b := button_callback reliable 0 "" 2 Scenario.admin_chat (TakeClient 200) in
  let r := button_callback reliable 0 "" 1 Scenario.admin_chat ConfirmClose in
  active_dialogs (state_after b Scenario.ann_with_client) = [(1, 100); (2, 200)] /\
  log_of b Scenario.ann_with_client
    = [Answer; GetChat 200; Edit Scenario.admin_chat MsgYouTookClient; Send 200 MsgAdminJoined] /\
  existsb is_save (log_of b Scenario.ann_with_client) = false /\
  active_dialogs (state_after r Scenario.ann_with_client) = [] /\
  log_of r Scenario.ann_with_client
    = [Answer; GetChat 100; Send 100 MsgDialogFinished; Edit Scenario.admin_chat MsgDialogClosed] /\
  existsb is_save (log_of r Scenario.ann_with_client) = false.
Proof. repeat split. Qed.

(** ** Transfer *)





(** A transfer keeps the clients of the table pairwise distinct. *)
Lemma transfer_keeps_clients_distinct
  (tg : list event -> event -> reply) (user_id chat_id target_admin_id : Z) (s : State) :
  NoDup (Dict.values (active_dialogs s)) ->
  NoDup (Dict.values (active_dialogs
           (state_after (transfer_client tg user_id chat_id target_admin_id) s))).
Proof.
  intros N.
  assert (X : forall client, Dict.get (active_dialogs s) user_id = Some client ->
              NoDup (Dict.values (Dict.set (Dict.del (active_dialogs s) user_id)
                                           target_admin_id client))).
  { intros client G. apply NoDup_values_set; [now apply NoDup_values_del|].
    now apply value_gone_after_del. }
  unfold transfer_client. run_handler.
  destruct (Dict.get (active_dialogs s) user_id) as [client|] eqn:G; simpl.
  - destruct (Dict.contains (active_dialogs s) target_admin_id); simpl.
    + split_replies; auto.
    + destruct (tg [] (GetChat target_admin_id)); simpl; split_replies; auto.
  - split_replies; auto.
Qed.

(** On a network that accepts every call, a transfer sends exactly one
    message to the client, one to the new admin and one to the initiator. *)
Lemma transfer_client_notifies_each_once :
  log_of (transfer_client reliable 1 Scenario.admin_chat 2) Scenario.ann_with_client
  = [GetChat 2; GetChat 100;
     SaveState (mkState [(1, "ann"); (2, "bob")]%string [(1, 1); (2, 1)] [(2, 100)] []
                        [(1, true); (2, true)]);
     Send 100 (MsgTransferredToAdmin "bob");
     Send 2 MsgClientHandedToYou;
     Edit Scenario.admin_chat (MsgTransferDone "bob")].
Proof. reflexivity. Qed.

(** ** Release *)




(** ** Two handlers for one client *)

(** Run alone, the two steps of a handler do to the table what the
    take-client branch of [button_callback] does. *)
Lemma take_client_steps_agree (a b chat c : Z) (s : State) :
  TakeClient.table
    (TakeClient.exec [TakeClient.First; TakeClient.First]
                     (TakeClient.start a b c (active_dialogs s)))
  = active_dialogs (state_after (button_callback reliable 0 "" a chat (TakeClient c)) s).
Proof.
  unfold button_callback. run_handler. unfold TakeClient.step. simpl.
  destruct (existsb (Z.eqb c) (Dict.values (active_dialogs s))); reflexivity.
Qed.

(** One press after the other, on the handlers themselves: the first admin
    gets the client, the second is told the client is taken and the state
    stays as the first press left it. *)
Lemma second_take_client_is_refused
  (tg1 tg2 : list event -> event -> reply) (now1 now2 : datetime) (fresh1 fresh2 : string)
  (a b chat c : Z) (s : State) :
  ~ In c (Dict.values (active_dialogs s)) ->
  tg1 [] Answer = Ok -> tg2 [] Answer = Ok ->
  let s1 := state_after (button_callback tg1 now1 fresh1 a chat (TakeClient c)) s in
  let second := button_callback tg2 now2 fresh2 b chat (TakeClient c) in
  Dict.get (active_dialogs s1) a = Some c /\
  state_after second s1 = s1 /\
  log_of second s1 = [Answer; GetChat c; Edit chat MsgClientAlreadyTaken].
Proof.
  intros NI A1 A2 s1 second.
  assert (E : s1 = with_active_dialogs s (Dict.set (active_dialogs s) a c)).
  { subst s1. unfold button_callback. run_handler. rewrite A1. simpl.
    assert (existsb (Z.eqb c) (Dict.values (active_dialogs s)) = false) as X.
    { destruct (existsb (Z.eqb c) (Dict.values (active_dialogs s))) eqn:X; auto.
      apply has_client_In in X. contradiction. }
    destruct (tg1 [Answer] (GetChat c)); simpl; rewrite X; simpl; split_replies; reflexivity. }
  assert (G : Dict.get (active_dialogs s1) a = Some c)
    by (rewrite E; simpl; apply get_set_same).
  split; [exact G|].
  assert (I : In c (Dict.values (active_dialogs s1))).
  { clear - G. induction (active_dialogs s1) as [|[k v] r IH]; simpl in *; [discriminate|].
    unfold Dict.values in *. simpl.
    destruct (Z.eqb k a); [left; congruence | right; auto]. }
  destruct (@take_client_refuses_claimed_client tg2 now2 fresh2 b chat c s1 I) as [S L].
  split; [exact S | exact (L A2)].
Qed.

(** C8, as the code has it. When the two presses for an unclaimed client
    are handled one after the other, in either order, exactly one of them
    takes the client and the other is refused. *)
Theorem take_client_one_after_the_other (a b c : Z) (d : Dict.t Z Z)
  (Free : ~ In c (Dict.values d)) :
  let first_then_second :=
    TakeClient.exec [TakeClient.First; TakeClient.First; TakeClient.Second; TakeClient.Second]
                    (TakeClient.start a b c d) in
  let second_then_first :=
    TakeClient.exec [TakeClient.Second; TakeClient.Second; TakeClient.First; TakeClient.First]
                    (TakeClient.start a b c d) in
  TakeClient.exactly_one_succeeds first_then_second /\
  TakeClient.table first_then_second = Dict.set d a c /\
  TakeClient.exactly_one_succeeds second_then_first /\
  TakeClient.table second_then_first = Dict.set d b c.
Proof.
  assert (X : existsb (Z.eqb c) (Dict.values d) = false).
  { destruct (existsb (Z.eqb c) (Dict.values d)) eqn:X; auto.
    apply has_client_In in X. contradiction. }
  assert (Y : forall k, existsb (Z.eqb c) (Dict.values (Dict.set d k c)) = true).
  { intros k. apply has_client_In.
    clear. induction d as [|[i v] r IH]; unfold Dict.values in *; simpl.
    - auto.
    - destruct (Z.eqb i k); simpl; auto. }
  assert (Check : forall u, TakeClient.step (TakeClient.mkHandler u c TakeClient.AtCheck) d
                            = (TakeClient.mkHandler u c TakeClient.AtAssign, d))
    by (intros u; unfold TakeClient.step; simpl; now rewrite X).
  assert (Late : forall u k, TakeClient.step (TakeClient.mkHandler u c TakeClient.AtCheck)
                                             (Dict.set d k c)
                             = (TakeClient.mkHandler u c (TakeClient.Finished false),
                                Dict.set d k c))
    by (intros u k; unfold TakeClient.step; simpl; now rewrite Y).
  unfold TakeClient.exec, TakeClient.start, TakeClient.exactly_one_succeeds.
  cbn [fold_left TakeClient.sched TakeClient.first TakeClient.second TakeClient.table].
  rewrite !Check.
  cbn [fold_left TakeClient.sched TakeClient.first TakeClient.second TakeClient.table].
  change (TakeClient.step (TakeClient.mkHandler a c TakeClient.AtAssign) d)
    with (TakeClient.mkHandler a c (TakeClient.Finished true), Dict.set d a c).
  change (TakeClient.step (TakeClient.mkHandler b c TakeClient.AtAssign) d)
    with (TakeClient.mkHandler b c (TakeClient.Finished true), Dict.set d b c).
  cbn [fold_left TakeClient.sched TakeClient.first TakeClient.second TakeClient.table].
  rewrite !Late.
  cbn [fold_left TakeClient.sched TakeClient.first TakeClient.second TakeClient.table].
  change (TakeClient.step (TakeClient.mkHandler b c (TakeClient.Finished false)) (Dict.set d a c))
    with (TakeClient.mkHandler b c (TakeClient.Finished false), Dict.set d a c).
  change (TakeClient.step (TakeClient.mkHandler a c (TakeClient.Finished false)) (Dict.set d b c))
    with (TakeClient.mkHandler a c (TakeClient.Finished false), Dict.set d b c).
  cbn [TakeClient.first TakeClient.second TakeClient.table TakeClient.took TakeClient.at_pc].
  tauto.
Qed.

Lemma take_client_one_after_the_other_witness :
  TakeClient.exactly_one_succeeds
    (TakeClient.exec [TakeClient.First; TakeClient.First; TakeClient.Second; TakeClient.Second]
                     (TakeClient.start 1 2 200 [(3, 100)])).
Proof.
  refine (proj1 (@take_client_one_after_the_other 1 2 200 [(3, 100)] _)).
  unfold Dict.values. simpl. intros [H|[]]. discriminate H.
Defined.

(** C8 as the specification states it fails: no lock separates the test from
    the assignment, and when both handlers make the test before either
    assigns, both take client 100. *)
Lemma take_client_race_both_succeed :
  let c := TakeClient.exec
             [TakeClient.First; TakeClient.Second; TakeClient.First; TakeClient.Second]
             (TakeClient.start 1 2 100 []) in
  TakeClient.took (TakeClient.first c) = Some true /\
  TakeClient.took (TakeClient.second c) = Some true /\
  TakeClient.table c = [(1, 100); (2, 100)] /\
  ~ TakeClient.exactly_one_succeeds c.
Proof.
  repeat split.
  intros [[_ H]|[H _]]; discriminate H.
Qed.

(** ** Backup rotation *)

Section Backups.
Import DatabaseConnection.

Lemma name_le_refl a : name_le a a.
Proof.
  unfold name_le, String.leb.
  replace (String.compare a a) with Eq; auto.
  symmetry. now apply String_as_OT.cmp_eq.
Qed.

Lemma name_le_cases a b : name_le a b <-> a = b \/ String_as_OT.lt a b.
Proof.
  unfold name_le, String.leb. split.
  - destruct (String.compare a b) eqn:C; try discriminate; intros _.
    + left. now apply String_as_OT.cmp_eq.
    + right. now apply String_as_OT.cmp_lt.
  - intros [->|L].
    + apply name_le_refl.
    + apply String_as_OT.cmp_lt in L. unfold String_as_OT.cmp in L. now rewrite L.
Qed.

Lemma name_le_trans a b c : name_le a b -> name_le b c -> name_le a c.
Proof.
  rewrite !name_le_cases. intros [->|L1] [->|L2]; auto.
  right. eapply String_as_OT.lt_trans; eauto.
Qed.

Lemma name_le_total a b : name_le a b \/ name_le b a.
Proof. apply String.leb_total. Qed.

Lemma name_le_antisym a b : name_le a b -> name_le b a -> a = b.
Proof. apply String.leb_antisym. Qed.

Lemma insert_perm x l : Permutation (insert x l) (x :: l).
Proof.
  induction l as [|y r IH]; simpl; auto.
  destruct (String.leb x y); auto.
  rewrite IH. apply perm_swap.
Qed.

Lemma sorted_perm l : Permutation (sorted l) l.
Proof.
  induction l as [|x r IH]; simpl; auto.
  rewrite insert_perm. now constructor.
Qed.

Lemma insert_sorted x l :
  StronglySorted name_le l -> StronglySorted name_le (insert x l).
Proof.
  induction l as [|y r IH]; simpl; intros S.
  - repeat constructor.
  - inversion S as [|? ? Sr Fr]; subst.
    destruct (String.leb x y) eqn:C.
    + constructor; auto. constructor; auto.
      eapply Forall_impl; [|exact Fr]. intros z. now apply name_le_trans.
    + constructor; auto.
      assert (name_le y x) as Lyx
        by (destruct (name_le_total x y) as [L|L]; auto; unfold name_le in L; congruence).
      eapply Permutation_Forall; [symmetry; apply insert_perm|].
      constructor; auto.
Qed.

Lemma sorted_sorted l : StronglySorted name_le (sorted l).
Proof.
  induction l as [|x r IH]; simpl.
  - constructor.
  - now apply insert_sorted.
Qed.

Lemma StronglySorted_app_le (l1 l2 : list string) :
  StronglySorted name_le (l1 ++ l2) ->
  forall x y, In x l1 -> In y l2 -> name_le x y.
Proof.
  induction l1 as [|a r IH]; simpl; intros S x y Ix Iy; [tauto|].
  inversion S as [|? ? Sr Fr]; subst.
  destruct Ix as [->|Ix].
  - rewrite Forall_forall in Fr. apply Fr. apply in_or_app. now right.
  - now apply IH.
Qed.

Lemma StronglySorted_app_l (l1 l2 : list string) :
  StronglySorted name_le (l1 ++ l2) -> StronglySorted name_le l1.
Proof.
  induction l1 as [|a r IH]; simpl; intros S; [constructor|].
  inversion S as [|? ? Sr Fr]; subst. constructor; auto.
  rewrite Forall_forall in *. intros z Iz. apply Fr. apply in_or_app. now left.
Qed.

Lemma split_last_n {A} (n : nat) (l : list A) : l = all_but_last n l ++ last_n n l.
Proof. unfold all_but_last, last_n. now rewrite firstn_skipn. Qed.


Lemma remove_each_all_ok (remove_ok : string -> bool) (olds dir : list string) :
  (forall f, In f olds -> remove_ok f = true) ->
  snd (remove_each remove_ok olds dir) = map Remove olds /\
  (forall x, In x (fst (remove_each remove_ok olds dir)) <-> In x dir /\ ~ In x olds) /\
  (NoDup dir -> NoDup (fst (remove_each remove_ok olds dir))).
Proof.
  revert dir. induction olds as [|f r IH]; intros dir OK; simpl.
  - repeat split; tauto.
  - rewrite OK by (now left).
    destruct (IH (remove string_dec f dir) (fun g I => OK g (or_intror I))) as (L & M & N).
    destruct (remove_each remove_ok r (remove string_dec f dir)) as [dir' l]; simpl in *.
    split; [now rewrite L|]. split.
    + intros x. rewrite M. split.
      * intros [I NI]. apply in_remove in I. intuition.
      * intros [I NI]. split; [|tauto]. apply in_in_remove; intuition.
    + intros ND. apply N. clear - ND.
      induction dir as [|a d IHd]; simpl; auto.
      inversion ND; subst. destruct (string_dec f a); auto.
      constructor; auto. intros I. apply in_remove in I. tauto.
Qed.

Lemma NoDup_copied name dir : NoDup dir -> NoDup (copied name dir).
Proof.
  intros N. unfold copied. destruct (existsb (String.eqb name) dir) eqn:E; auto.
  assert (~ In name dir) as NI.
  { intros I. assert (existsb (String.eqb name) dir = true); [|congruence].
    apply existsb_exists. exists name. split; auto. apply String.eqb_refl. }
  clear E. induction dir as [|a d IH]; simpl.
  - repeat constructor. auto.
  - inversion N; subst. simpl in NI. constructor.
    + rewrite in_app_iff. simpl. intuition.
    + apply IH; tauto.
Qed.

Lemma In_copied name dir x : In x (copied name dir) <-> x = name \/ In x dir.
Proof.
  unfold copied. destruct (existsb (String.eqb name) dir) eqn:E.
  - apply existsb_exists in E. destruct E as [y [I E]]. apply String.eqb_eq in E. subst y.
    split; [tauto | intros [->|]; auto].
  - rewrite in_app_iff. simpl. intuition.
Qed.

Lemma substring_all s : substring 0 (String.length s) s = s.
Proof. induction s as [|c r IH]; simpl; congruence. Qed.

Lemma substring_suffix a s :
  substring (String.length a) (String.length s) (a ++ s)%string = s.
Proof. induction a as [|c r IH]; simpl; auto. apply substring_all. Qed.

Lemma length_string_app a s :
  String.length (a ++ s)%string = (String.length a + String.length s)%nat.
Proof. induction a as [|c r IH]; simpl; auto. Qed.

Lemma endswith_app a s : endswith (a ++ s)%string s = true.
Proof.
  unfold endswith. rewrite length_string_app.
  replace (String.length a + String.length s - String.length s)%nat
    with (String.length a) by lia.
  rewrite substring_suffix, String.eqb_refl.
  rewrite andb_true_r. apply Nat.leb_le. lia.
Qed.

Lemma is_db_backup_name stamp : is_db (backup_name stamp) = true.
Proof.
  unfold is_db, backup_name.
  change ("support_bot_backup_" ++ stamp ++ ".db")%string
    with (("support_bot_backup_" ++ stamp) ++ ".db")%string.
  apply endswith_app.
Qed.

Lemma NoDup_app_disjoint {A} (l1 l2 : list A) x :
  NoDup (l1 ++ l2) -> In x l1 -> In x l2 -> False.
Proof.
  induction l1 as [|a r IH]; simpl; intros N I1 I2; [tauto|].
  inversion N; subst. destruct I1 as [->|I1]; auto.
  apply H1. apply in_or_app. now right.
Qed.


(** When no backup has a later name than the new one, the new backup is
    among the files that are kept. *)
Lemma newest_backup_is_kept (stamp : string) (dir : list string) :
  NoDup dir ->
  (forall f, In f dir -> is_db f = true -> name_le f (backup_name stamp)) ->
  In (backup_name stamp)
     (last_n 5 (sorted (filter is_db (copied (backup_name stamp) dir)))).
Proof.
  intros ND Max.
  set (name := backup_name stamp) in *.
  set (backups := sorted (filter is_db (copied name dir))).
  assert (PB : Permutation backups (filter is_db (copied name dir))) by apply sorted_perm.
  assert (B : backups = all_but_last 5 backups ++ last_n 5 backups) by apply split_last_n.
  assert (NB : NoDup backups).
  { eapply Permutation_NoDup; [symmetry; exact PB|].
    apply NoDup_filter. now apply NoDup_copied. }
  assert (IB : In name backups).
  { eapply Permutation_in; [symmetry; exact PB|].
    apply filter_In. split; [apply In_copied; now left | apply is_db_backup_name]. }
  rewrite B in IB. apply in_app_or in IB. destruct IB as [IR|IK]; [exfalso | exact IK].
  assert (SS : StronglySorted name_le (all_but_last 5 backups ++ last_n 5 backups))
    by (rewrite <- B; apply sorted_sorted).
  destruct (last_n 5 backups) as [|k rest] eqn:K.
  - unfold last_n in K. apply (f_equal (@List.length string)) in K.
    rewrite length_skipn in K. simpl in K.
    unfold all_but_last in IR.
    assert (List.length backups - 5 = 0)%nat as Z0 by lia.
    rewrite Z0 in IR. exact IR.
  - assert (name_le name k) as L1
        by (eapply StronglySorted_app_le; eauto; now left).
    assert (In k backups) as IKb by (rewrite B; apply in_or_app; right; now left).
    apply (Permutation_in _ PB) in IKb. apply filter_In in IKb.
    destruct IKb as [IC D]. apply In_copied in IC.
    assert (k = name) as ->.
    { destruct IC as [|ID]; auto. apply name_le_antisym; auto. }
    rewrite B in NB. eapply NoDup_app_disjoint; [exact NB | exact IR | now left].
Qed.


End Backups.

(** * More of the bot *)

(** ** Registration, continued *)

Ltac unfold_handler :=
  unfold state_after, log_of, run, bind, catch, call, emit, put_state, get_state, ret,
    save_state, save_message_to_history.

(** The state after a valid redemption, whatever the network does. *)
Lemma set_tag_valid_state
  (tg : list event -> event -> reply) (now issued : datetime) (user_id chat_id : Z)
  (password tag : string) (s : State) :
  Dict.get (one_time_passwords s) password = Some issued ->
  now - issued <= microseconds_per_day ->
  state_after (set_tag_command tg now user_id chat_id [password; tag]) s
  = mkState (Dict.set (admin_tags s) user_id tag)
            (Dict.set (admin_levels s) user_id 1)
            (active_dialogs s)
            (Dict.del (one_time_passwords s) password)
            (Dict.set (admin_active_status s) user_id true).
Proof.
  intros G Fresh.
  assert (E : not_expired now issued = true)
    by (unfold not_expired; apply Z.leb_le; exact Fresh).
  unfold set_tag_command. run_handler. rewrite G, E. simpl.
  split_replies; reflexivity.
Qed.

(** X1. [/set_tag] with any number of arguments other than two answers with
    the usage line and changes nothing. *)
Theorem set_tag_wrong_arity
  (tg : list event -> event -> reply) (now : datetime) (user_id chat_id : Z)
  (args : list string) (s : State)
  (Arity : List.length args <> 2%nat) :
  state_after (set_tag_command tg now user_id chat_id args) s = s /\
  log_of (set_tag_command tg now user_id chat_id args) s = [Send chat_id MsgSetTagUsage].
Proof.
  destruct args as [|a [|b [|c r]]]; simpl in Arity; try contradiction;
    unfold set_tag_command; run_handler; split_replies; auto.
Qed.

Lemma set_tag_wrong_arity_witness :
  state_after (set_tag_command reliable 0 2 2 ["Xk3mPq9z"]%string) Scenario.sam_registered
  = Scenario.sam_registered.
Proof.
  apply (@set_tag_wrong_arity reliable 0 2 2 ["Xk3mPq9z"%string] Scenario.sam_registered).
  simpl. lia.
Defined.

(** X2. A password can be redeemed once: after a valid redemption, the same
    password is refused as invalid for every caller and at any time, and
    that second attempt changes nothing. *)
Theorem set_tag_single_use
  (tg tg2 : list event -> event -> reply) (now issued now2 : datetime)
  (user_id chat_id user2 chat2 : Z) (password tag tag2 : string) (s : State)
  (W : Dict.wf (one_time_passwords s))
  (G : Dict.get (one_time_passwords s) password = Some issued)
  (Fresh : now - issued <= microseconds_per_day) :
  let s1 := state_after (set_tag_command tg now user_id chat_id [password; tag]) s in
  let again := set_tag_command tg2 now2 user2 chat2 [password; tag2] in
  Dict.get (one_time_passwords s1) password = None /\
  state_after again s1 = s1 /\
  log_of again s1 = [Send chat2 MsgInvalidPassword].
Proof.
  intros s1 again.
  assert (N : Dict.get (one_time_passwords s1) password = None).
  { subst s1. rewrite (@set_tag_valid_state tg now issued user_id chat_id password tag s G Fresh). simpl.
    now apply get_del_same. }
  split; [exact N|].
  subst again. unfold set_tag_command. run_handler. rewrite N. simpl.
  split_replies; auto.
Qed.

Lemma set_tag_single_use_witness :
  let s1 := state_after (set_tag_command reliable Scenario.hour 2 2 ["Xk3mPq9z"; "bob"]%string)
                        Scenario.sam_registered in
  log_of (set_tag_command reliable (2 * Scenario.hour) 3 3 ["Xk3mPq9z"; "eve"]%string) s1
  = [Send 3 MsgInvalidPassword].
Proof.
  assert (W : Dict.wf (one_time_passwords Scenario.sam_registered))
    by (repeat constructor; simpl; tauto).
  apply (@set_tag_single_use reliable reliable Scenario.hour 0 (2 * Scenario.hour)
           2 2 3 3 "Xk3mPq9z" "bob" "eve" Scenario.sam_registered W eq_refl
           ltac:(vm_compute; discriminate)).
Defined.

(** X3. [/set_tag] touches only the caller and the password it was given:
    the tag, level and status of every other user, every other password and
    the table of dialogs are as before, whatever the arguments, the age of
    the password and the network. *)
Theorem set_tag_touches_only_caller
  (tg : list event -> event -> reply) (now : datetime) (user_id chat_id : Z)
  (args : list string) (s : State) :
  let s' := state_after (set_tag_command tg now user_id chat_id args) s in
  active_dialogs s' = active_dialogs s /\
  (forall k, k <> user_id ->
             Dict.get (admin_tags s') k = Dict.get (admin_tags s) k /\
             Dict.get (admin_levels s') k = Dict.get (admin_levels s) k /\
             Dict.get (admin_active_status s') k = Dict.get (admin_active_status s) k) /\
  (forall p, nth_error args 0 <> Some p ->
             Dict.get (one_time_passwords s') p = Dict.get (one_time_passwords s) p).
Proof.
  assert (Same : forall s0 : State,
             active_dialogs s0 = active_dialogs s0 /\
             (forall k, k <> user_id ->
                        Dict.get (admin_tags s0) k = Dict.get (admin_tags s0) k /\
                        Dict.get (admin_levels s0) k = Dict.get (admin_levels s0) k /\
                        Dict.get (admin_active_status s0) k
                        = Dict.get (admin_active_status s0) k) /\
             (forall p, nth_error args 0 <> Some p ->
                        Dict.get (one_time_passwords s0) p = Dict.get (one_time_passwords s0) p))
    by (intros; repeat split).
  destruct args as [|password [|tag [|c r]]];
    try (unfold set_tag_command; run_handler; split_replies; apply Same).
  unfold set_tag_command. run_handler.
  destruct (Dict.get (one_time_passwords s) password) as [issued|] eqn:G; simpl.
  - destruct (not_expired now issued); simpl.
    + destruct (tg [DbRegister user_id tag] (Send chat_id (MsgTagSet tag))); simpl;
        split_replies;
        (split; [reflexivity|]; split;
         [intros k N; rewrite !get_set_other by congruence; auto
         | intros p N; apply get_del_other; congruence]).
    + split_replies;
        (split; [reflexivity|]; split;
         [intros k N; auto | intros p N; apply get_del_other; congruence]).
  - split_replies; apply Same.
Qed.

Lemma set_tag_touches_only_caller_witness :
  Dict.get (admin_tags (state_after (set_tag_command reliable Scenario.hour 2 2
                                                     ["Xk3mPq9z"; "bob"]%string)
                                    Scenario.sam_registered)) 1
  = Some "sam"%string.
Proof.
  destruct (@set_tag_touches_only_caller reliable Scenario.hour 2 2
              ["Xk3mPq9z"; "bob"]%string Scenario.sam_registered) as (_ & Others & _).
  destruct (Others 1 ltac:(discriminate)) as (T & _).
  rewrite T. reflexivity.
Defined.

(** The levels stay within 1 and 2 under [/set_tag]. *)
Lemma set_tag_keeps_levels_valid
  (tg : list event -> event -> reply) (now : datetime) (user_id chat_id : Z)
  (args : list string) (s : State)
  (Valid : levels_valid s) :
  levels_valid (state_after (set_tag_command tg now user_id chat_id args) s).
Proof.
  assert (Set1 : levels_valid (mkState (admin_tags s) (Dict.set (admin_levels s) user_id 1)
                                       (active_dialogs s) (one_time_passwords s)
                                       (admin_active_status s))).
  { intros a l. simpl. destruct (Z.eq_dec user_id a) as [->|N].
    - rewrite get_set_same. intros E. inversion E. subst. now left.
    - rewrite get_set_other by assumption. apply Valid. }
  destruct args as [|password [|tag [|c r]]];
    try (unfold set_tag_command; run_handler; split_replies; exact Valid).
  unfold set_tag_command. run_handler.
  destruct (Dict.get (one_time_passwords s) password) as [issued|] eqn:G; simpl.
  - destruct (not_expired now issued); simpl.
    + destruct (tg [DbRegister user_id tag] (Send chat_id (MsgTagSet tag))); simpl;
        split_replies; exact Set1.
    + split_replies; exact Valid.
  - split_replies; exact Valid.
Qed.

(** ** Buttons *)

(** X4. When [query.answer()] fails, the press has no effect at all,
    whatever the button. *)
Theorem button_unanswered_does_nothing
  (tg : list event -> event -> reply) (now : datetime) (fresh : string)
  (user_id chat_id : Z) (data : callback_data) (s : State)
  (Refused : tg [] Answer <> Ok) :
  state_after (button_callback tg now fresh user_id chat_id data) s = s /\
  log_of (button_callback tg now fresh user_id chat_id data) s = [Answer].
Proof.
  unfold button_callback. run_handler.
  destruct (tg [] Answer); try contradiction; simpl; auto.
Qed.

Lemma button_unanswered_does_nothing_witness :
  state_after (button_callback (fun _ _ => Failed) 0 "" 1 Scenario.admin_chat ConfirmClose)
              Scenario.ann_with_client
  = Scenario.ann_with_client.
Proof.
  apply (@button_unanswered_does_nothing (fun _ _ => Failed) 0 "" 1 Scenario.admin_chat
           ConfirmClose Scenario.ann_with_client).
  discriminate.
Defined.

(** X5. Only a level-2 admin can generate a password: for anybody else the
    button is ignored without a message. For a level-2 admin the new
    password is stored with the time of the press, and nothing else
    changes. *)
Theorem generate_password_level2_only
  (tg : list event -> event -> reply) (now : datetime) (fresh : string)
  (user_id chat_id : Z) (s : State) :
  let c := button_callback tg now fresh user_id chat_id GeneratePassword in
  (Dict.get (admin_levels s) user_id <> Some 2 ->
   state_after c s = s /\ log_of c s = [Answer]) /\
  (Dict.get (admin_levels s) user_id = Some 2 -> tg [] Answer = Ok ->
   state_after c s
   = with_one_time_passwords s (Dict.set (one_time_passwords s) fresh now) /\
   Dict.get (one_time_passwords (state_after c s)) fresh = Some now /\
   log_of c s = [Answer; Send chat_id (MsgPasswordGenerated fresh)]).
Proof.
  split.
  - intros NL. unfold button_callback. run_handler.
    destruct (tg [] Answer); simpl; auto.
    destruct (Dict.get (admin_levels s) user_id) as [l|]; simpl; auto.
    destruct (Z.eqb_spec l 2) as [->|N]; simpl; auto. congruence.
  - intros L A. unfold button_callback. run_handler. rewrite A. simpl. rewrite L. simpl.
    split_replies; (split; [reflexivity | split; [apply get_set_same | reflexivity]]).
Qed.

Lemma generate_password_level2_only_witness :
  (let c := button_callback reliable 5 "Qw8rTy2u" 1 1 GeneratePassword in
   state_after c Scenario.sam_registered = Scenario.sam_registered) /\
  (let c := button_callback reliable 5 "Qw8rTy2u" 7 7 GeneratePassword in
   Dict.get (one_time_passwords (state_after c Scenario.boss_and_password)) "Qw8rTy2u"%string
   = Some 5).
Proof.
  split.
  - apply (@generate_password_level2_only reliable 5 "Qw8rTy2u" 1 1 Scenario.sam_registered).
    discriminate.
  - apply (@generate_password_level2_only reliable 5 "Qw8rTy2u" 7 7
             Scenario.boss_and_password); reflexivity.
Defined.

(** X6. A generated password works: when a level-2 admin generates a
    password at time [t] and any user redeems it within 24 hours, that user
    is registered at level 1 with the requested tag, and the password is
    gone. *)
Theorem generated_password_redeemable
  (tg tg2 : list event -> event -> reply) (t t2 : datetime) (fresh tag : string)
  (boss boss_chat user_id chat_id : Z) (s : State)
  (W : Dict.wf (one_time_passwords s))
  (L : Dict.get (admin_levels s) boss = Some 2)
  (A : tg [] Answer = Ok)
  (Soon : t2 - t <= microseconds_per_day) :
  let s1 := state_after (button_callback tg t fresh boss boss_chat GeneratePassword) s in
  let s2 := state_after (set_tag_command tg2 t2 user_id chat_id [fresh; tag]) s1 in
  Dict.get (admin_tags s2) user_id = Some tag /\
  Dict.get (admin_levels s2) user_id = Some 1 /\
  Dict.get (admin_active_status s2) user_id = Some true /\
  Dict.get (one_time_passwords s2) fresh = None.
Proof.
  intros s1 s2.
  assert (E1 : s1 = with_one_time_passwords s (Dict.set (one_time_passwords s) fresh t)).
  { subst s1. unfold button_callback. run_handler. rewrite A. simpl. rewrite L. simpl.
    split_replies; reflexivity. }
  assert (G : Dict.get (one_time_passwords s1) fresh = Some t)
    by (rewrite E1; simpl; apply get_set_same).
  subst s2. rewrite (@set_tag_valid_state tg2 t2 t user_id chat_id fresh tag s1 G Soon). simpl.
  rewrite !get_set_same. repeat split.
  apply get_del_same. rewrite E1. simpl. now apply wf_set.
Qed.

Lemma generated_password_redeemable_witness :
  let s1 := state_after (button_callback reliable 5 "Qw8rTy2u" 7 7 GeneratePassword)
                        Scenario.boss_and_password in
  let s2 := state_after (set_tag_command reliable (5 + Scenario.hour) 9 9
                                         ["Qw8rTy2u"; "kim"]%string) s1 in
  Dict.get (admin_tags s2) 9 = Some "kim"%string /\
  Dict.get (admin_levels s2) 9 = Some 1.
Proof.
  assert (W : Dict.wf (one_time_passwords Scenario.boss_and_password))
    by (repeat constructor; simpl; tauto).
  destruct (@generated_password_redeemable reliable reliable 5 (5 + Scenario.hour)
              "Qw8rTy2u" "kim" 7 7 9 9 Scenario.boss_and_password W eq_refl eq_refl
              ltac:(vm_compute; discriminate)) as (T & Lv & _).
  split; assumption.
Defined.

(** What a press can change, button by button. *)
Lemma button_callback_frame
  (tg : list event -> event -> reply) (now : datetime) (fresh : string)
  (user_id chat_id : Z) (data : callback_data) (s : State) :
  let s' := state_after (button_callback tg now fresh user_id chat_id data) s in
  admin_tags s' = admin_tags s /\
  admin_levels s' = admin_levels s /\
  (data <> GeneratePassword -> one_time_passwords s' = one_time_passwords s) /\
  (data <> ToggleStatus -> admin_active_status s' = admin_active_status s) /\
  ((forall c, data <> TakeClient c) -> data <> ConfirmClose ->
   (forall a, data <> Transfer a) -> active_dialogs s' = active_dialogs s).
Proof.
  unfold button_callback, transfer_client, toggle_activity_status, update_admin_panel.
  unfold_handler. simpl.
  destruct (tg [] Answer); simpl; try (repeat split; reflexivity).
  destruct data; simpl.
  - destruct (match Dict.get (admin_levels s) user_id with
              | Some l => l =? 2 | None => false end); simpl;
      split_replies; repeat split; auto; congruence.
  - destruct (match Dict.get (admin_levels s) user_id with
              | Some l => l =? 2 | None => false end); simpl;
      split_replies; repeat split; auto.
  - destruct (tg [Answer] (GetChat client_id)); simpl;
      destruct (existsb (Z.eqb client_id) (Dict.values (active_dialogs s))); simpl;
      split_replies; repeat split; auto; intros X; exfalso; now apply (X client_id).
  - destruct (Dict.get (active_dialogs s) user_id) as [c|]; simpl;
      [destruct (tg [Answer] (GetChat c)); simpl|]; split_replies; repeat split; auto.
  - destruct (Dict.get (active_dialogs s) user_id) as [c|]; simpl;
      [destruct (tg [Answer] (GetChat c)); simpl|]; split_replies; repeat split; auto;
      congruence.
  - destruct (negb (Dict.contains (active_dialogs s) user_id)); simpl;
      split_replies; repeat split; auto.
  - destruct (Dict.get (active_dialogs s) user_id) as [c|]; simpl.
    + destruct (Dict.contains (active_dialogs s) target_admin_id); simpl.
      * split_replies; repeat split; auto.
      * destruct (tg [Answer] (GetChat target_admin_id)); simpl; split_replies;
          repeat split; auto; intros _ _ X; exfalso; now apply (X target_admin_id).
    + split_replies; repeat split; auto.
  - split_replies; repeat split; auto.
  - destruct (negb (Dict.contains (admin_levels s) user_id)); simpl;
      split_replies; repeat split; auto; congruence.
  - repeat split; auto.
Qed.

(** X7. No button changes a tag or a level. The passwords change only
    under "generate_password", the status flags only under "toggle_status",
    and the table of dialogs only under "take_client", "confirm_close" and
    "transfer". *)
Theorem buttons_change_only_their_part
  (tg : list event -> event -> reply) (now : datetime) (fresh : string)
  (user_id chat_id : Z) (data : callback_data) (s : State) :
  let s' := state_after (button_callback tg now fresh user_id chat_id data) s in
  admin_tags s' = admin_tags s /\
  admin_levels s' = admin_levels s /\
  (data <> GeneratePassword -> one_time_passwords s' = one_time_passwords s) /\
  (data <> ToggleStatus -> admin_active_status s' = admin_active_status s) /\
  ((forall c, data <> TakeClient c) -> data <> ConfirmClose ->
   (forall a, data <> Transfer a) -> active_dialogs s' = active_dialogs s).
Proof. exact (@button_callback_frame tg now fresh user_id chat_id data s). Qed.

Lemma buttons_change_only_their_part_witness :
  active_dialogs (state_after (button_callback reliable 0 "" 1 1 ToggleStatus)
                              Scenario.ann_with_client)
  = active_dialogs Scenario.ann_with_client.
Proof.
  destruct (@buttons_change_only_their_part reliable 0 "" 1 1 ToggleStatus
              Scenario.ann_with_client) as (_ & _ & _ & _ & Table).
  apply Table; intros; discriminate.
Defined.

(** X8. Whatever the button and the network, a press keeps the clients of
    the table pairwise distinct. *)
Theorem buttons_keep_clients_distinct
  (tg : list event -> event -> reply) (now : datetime) (fresh : string)
  (user_id chat_id : Z) (data : callback_data) (s : State)
  (Distinct : NoDup (Dict.values (active_dialogs s))) :
  NoDup (Dict.values (active_dialogs
           (state_after (button_callback tg now fresh user_id chat_id data) s))).
Proof.
  destruct (@button_callback_frame tg now fresh user_id chat_id data s)
    as (_ & _ & _ & _ & Other).
  destruct data;
    try (rewrite Other by (intros; discriminate); exact Distinct).
  - now apply take_client_keeps_clients_distinct.
  - now apply confirm_close_keeps_clients_distinct.
  - unfold button_callback. unfold state_after, run, bind at 1, call at 1. simpl.
    destruct (tg [] Answer); simpl; auto.
    unfold bind at 1, get_state at 1. simpl.
    assert (X : forall l, NoDup (Dict.values (active_dialogs
                  (mem (snd (transfer_client tg user_id chat_id target_admin_id
                                             {| mem := s; log := l |})))))).
    { intros l. unfold transfer_client. unfold_handler. simpl.
      assert (Y : forall client, Dict.get (active_dialogs s) user_id = Some client ->
                  NoDup (Dict.values (Dict.set (Dict.del (active_dialogs s) user_id)
                                               target_admin_id client))).
      { intros client G. apply NoDup_values_set; [now apply NoDup_values_del|].
        now apply value_gone_after_del. }
      destruct (Dict.get (active_dialogs s) user_id) as [client|] eqn:G; simpl.
      - destruct (Dict.contains (active_dialogs s) target_admin_id); simpl.
        + split_replies; auto.
        + destruct (tg l (GetChat target_admin_id)); simpl; split_replies; auto.
      - split_replies; auto. }
    apply X.
Qed.

Lemma buttons_keep_clients_distinct_witness :
  NoDup (Dict.values (active_dialogs
           (state_after (button_callback reliable 0 "" 1 Scenario.admin_chat (Transfer 2))
                        Scenario.ann_with_client))).
Proof.
  apply buttons_keep_clients_distinct. repeat constructor; simpl; tauto.
Defined.



(** ** Transfer, continued *)

(** The state after a transfer whose two look-ups are answered. *)
Lemma transfer_client_state
  (tg : list event -> event -> reply) (user_id chat_id target_admin_id client_id : Z)
  (s : State) :
  Dict.get (active_dialogs s) user_id = Some client_id ->
  Dict.contains (active_dialogs s) target_admin_id = false ->
  tg [] (GetChat target_admin_id) = Ok ->
  tg [GetChat target_admin_id] (GetChat client_id) = Ok ->
  state_after (transfer_client tg user_id chat_id target_admin_id) s
  = with_active_dialogs s
      (Dict.set (Dict.del (active_dialogs s) user_id) target_admin_id client_id).
Proof.
  intros G B R1 R2. unfold transfer_client. run_handler.
  rewrite G, B. simpl. rewrite R1. simpl. rewrite R2. simpl.
  split_replies; reflexivity.
Qed.

(** X10. An admin cannot transfer a client to themselves: the request is
    answered "target busy" and the state stays as it was. *)
Theorem transfer_to_self_refused
  (tg : list event -> event -> reply) (user_id chat_id client_id : Z) (s : State)
  (G : Dict.get (active_dialogs s) user_id = Some client_id) :
  state_after (transfer_client tg user_id chat_id user_id) s = s /\
  exists rest, log_of (transfer_client tg user_id chat_id user_id) s
               = Edit chat_id MsgTargetBusy :: rest.
Proof.
  assert (B : Dict.contains (active_dialogs s) user_id = true)
    by (unfold Dict.contains; now rewrite G).
  unfold transfer_client. run_handler. rewrite G, B. simpl.
  split_replies; split; eauto.
Qed.

Lemma transfer_to_self_refused_witness :
  state_after (transfer_client reliable 1 Scenario.admin_chat 1) Scenario.ann_with_client
  = Scenario.ann_with_client.
Proof.
  apply (@transfer_to_self_refused reliable 1 Scenario.admin_chat 100
           Scenario.ann_with_client eq_refl).
Defined.

(** X11. When the look-up of the target admin or of the client fails, the
    transfer is abandoned: the state is unchanged, nothing is saved, no
    message goes to the client or to the target, and the initiator is told
    about the error. *)
Theorem transfer_lookup_failure_aborts
  (tg : list event -> event -> reply) (user_id chat_id target_admin_id client_id : Z)
  (s : State)
  (G : Dict.get (active_dialogs s) user_id = Some client_id)
  (B : Dict.contains (active_dialogs s) target_admin_id = false)
  (Lost : tg [] (GetChat target_admin_id) <> Ok \/
          tg [GetChat target_admin_id] (GetChat client_id) <> Ok) :
  let c := transfer_client tg user_id chat_id target_admin_id in
  state_after c s = s /\
  (log_of c s = [GetChat target_admin_id; Edit chat_id MsgTransferError] \/
   log_of c s = [GetChat target_admin_id; GetChat client_id; Edit chat_id MsgTransferError]).
Proof.
  unfold transfer_client. run_handler. rewrite G, B. simpl.
  destruct (tg [] (GetChat target_admin_id)) eqn:R1; simpl;
    try solve [split_replies; auto].
  destruct (tg [GetChat target_admin_id] (GetChat client_id)) eqn:R2; simpl;
    try solve [split_replies; auto].
  destruct Lost; congruence.
Qed.

Lemma transfer_lookup_failure_aborts_witness :
  state_after (transfer_client (fun _ e => match e with GetChat 2 => Failed | _ => Ok end)
                               1 Scenario.admin_chat 2)
              Scenario.ann_with_client
  = Scenario.ann_with_client.
Proof.
  apply (@transfer_lookup_failure_aborts
           (fun _ e => match e with GetChat 2 => Failed | _ => Ok end)
           1 Scenario.admin_chat 2 100 Scenario.ann_with_client eq_refl eq_refl).
  left. discriminate.
Defined.

(** X12. Transferring a client to a free admin and back gives every admin
    the entry it had before, and the registry is untouched. *)
Theorem transfer_there_and_back
  (tg1 tg2 : list event -> event -> reply) (a b chat_a chat_b client_id : Z) (s : State)
  (W : Dict.wf (active_dialogs s))
  (G : Dict.get (active_dialogs s) a = Some client_id)
  (B : Dict.contains (active_dialogs s) b = false)
  (R1 : tg1 [] (GetChat b) = Ok) (R2 : tg1 [GetChat b] (GetChat client_id) = Ok)
  (R3 : tg2 [] (GetChat a) = Ok) (R4 : tg2 [GetChat a] (GetChat client_id) = Ok) :
  let s1 := state_after (transfer_client tg1 a chat_a b) s in
  let s2 := state_after (transfer_client tg2 b chat_b a) s1 in
  Dict.get (active_dialogs s1) b = Some client_id /\
  Dict.get (active_dialogs s1) a = None /\
  (forall k, Dict.get (active_dialogs s2) k = Dict.get (active_dialogs s) k) /\
  same_registry s s2.
Proof.
  intros s1 s2.
  assert (NE : a <> b).
  { intros ->. unfold Dict.contains in B. rewrite G in B. discriminate. }
  assert (Bn : Dict.get (active_dialogs s) b = None).
  { unfold Dict.contains in B. destruct (Dict.get (active_dialogs s) b); congruence. }
  assert (E1 : s1 = with_active_dialogs s
                      (Dict.set (Dict.del (active_dialogs s) a) b client_id))
    by (subst s1; now apply transfer_client_state).
  assert (Gb : Dict.get (active_dialogs s1) b = Some client_id)
    by (rewrite E1; simpl; apply get_set_same).
  assert (Ga : Dict.get (active_dialogs s1) a = None).
  { rewrite E1. simpl. rewrite get_set_other by congruence. now apply get_del_same. }
  assert (W1 : Dict.wf (active_dialogs s1))
    by (rewrite E1; simpl; apply wf_set; now apply wf_del).
  assert (E2 : s2 = with_active_dialogs s1
                      (Dict.set (Dict.del (active_dialogs s1) b) a client_id)).
  { subst s2. apply transfer_client_state; auto.
    unfold Dict.contains. now rewrite Ga. }
  split; [exact Gb|]. split; [exact Ga|]. split.
  - intros k. rewrite E2. simpl.
    destruct (Z.eq_dec k a) as [->|Na].
    + now rewrite get_set_same.
    + rewrite get_set_other by congruence.
      destruct (Z.eq_dec k b) as [->|Nb].
      * rewrite get_del_same by assumption. now rewrite Bn.
      * rewrite get_del_other by congruence. rewrite E1. simpl.
        rewrite get_set_other by congruence. apply get_del_other. congruence.
  - rewrite E2, E1. repeat split.
Qed.

Lemma transfer_there_and_back_witness :
  let s1 := state_after (transfer_client reliable 1 Scenario.admin_chat 2)
                        Scenario.ann_with_client in
  let s2 := state_after (transfer_client reliable 2 Scenario.admin_chat 1) s1 in
  Dict.get (active_dialogs s1) 2 = Some 100 /\
  Dict.get (active_dialogs s2) 1 = Some 100 /\
  Dict.get (active_dialogs s2) 2 = None.
Proof.
  assert (W : Dict.wf (active_dialogs Scenario.ann_with_client))
    by (repeat constructor; simpl; tauto).
  destruct (@transfer_there_and_back reliable reliable 1 2 Scenario.admin_chat
              Scenario.admin_chat 100 Scenario.ann_with_client W
              eq_refl eq_refl eq_refl eq_refl eq_refl eq_refl) as (There & _ & Back & _).
  cbv zeta. split; [exact There|]. split; rewrite Back; reflexivity.
Defined.

(** ** Sending safely *)

Lemma admin_of_client_get (d : Dict.t Z Z) (chat_id a : Z) :
  Dict.wf d -> admin_of_client d chat_id = Some a -> Dict.get d a = Some chat_id.
Proof.
  unfold Dict.wf, Dict.keys. induction d as [|[k c] r IH]; simpl; [discriminate|].
  intros W F. inversion W; subst.
  destruct (Z.eqb_spec c chat_id) as [->|N].
  - inversion F; subst. now rewrite Z.eqb_refl.
  - specialize (IH H2 F).
    destruct (Z.eqb_spec k a) as [->|Nk]; auto.
    exfalso. apply H1. change (In a (Dict.keys r)).
    destruct (In_dec Z.eq_dec a (Dict.keys r)) as [I|NI]; auto.
    apply get_None_keys in NI. congruence.
Qed.

Lemma admin_of_client_None (d : Dict.t Z Z) (chat_id : Z) :
  admin_of_client d chat_id = None <-> ~ In chat_id (Dict.values d).
Proof.
  unfold Dict.values. induction d as [|[k c] r IH]; simpl; [tauto|].
  destruct (Z.eqb_spec c chat_id) as [->|N].
  - split; [discriminate | tauto].
  - rewrite IH. tauto.
Qed.

Lemma same_client_same_admin (d : Dict.t Z Z) (a b v : Z) :
  NoDup (Dict.values d) -> Dict.get d a = Some v -> Dict.get d b = Some v -> a = b.
Proof.
  unfold Dict.values. induction d as [|[k x] r IH]; simpl; [discriminate|].
  intros N Ga Gb. inversion N as [|? ? Fresh Rest]; subst.
  change (@eqb Z EqDec_Z) with Z.eqb in Ga, Gb.
  destruct (Z.eqb_spec k a) as [Ea|Na]; destruct (Z.eqb_spec k b) as [Eb|Nb].
  - congruence.
  - inversion Ga; subst. apply get_In_values in Gb. contradiction.
  - inversion Gb; subst. apply get_In_values in Ga. contradiction.
  - now apply IH.
Qed.

(** X13. When the peer has blocked the bot, [safe_send_message] returns
    without a message object and removes one entry of the table: that of
    the first admin, in the order of the table, who is bound to the chat.
    Every other entry is kept, so with pairwise distinct clients no admin is
    bound to the chat afterwards, while a later admin bound to the same chat
    stays bound. [save_state()] is then called on the new table, and commits
    it when the tags are distinct and the levels are 1 or 2. When no admin
    is bound to the chat, nothing changes and [save_state()] is not
    called. *)
Theorem safe_send_blocked_drops_dialog
  (tg : list event -> event -> reply) (chat_id : Z) (text : msg) (s : State)
  (W : Dict.wf (active_dialogs s))
  (B : tg [] (Send chat_id text) = Blocked) :
  let c := safe_send_message tg chat_id text in
  fst (run c s) = Some false /\
  same_registry s (state_after c s) /\
  (forall a,
      admin_of_client (active_dialogs s) chat_id = Some a ->
      Dict.get (active_dialogs s) a = Some chat_id /\
      state_after c s = with_active_dialogs s (Dict.del (active_dialogs s) a) /\
      Dict.get (active_dialogs (state_after c s)) a = None /\
      (forall k, k <> a ->
                 Dict.get (active_dialogs (state_after c s)) k
                 = Dict.get (active_dialogs s) k) /\
      log_of c s = [Send chat_id text; SaveState (state_after c s)] /\
      (NoDup (Dict.values (active_dialogs s)) ->
       ~ In chat_id (Dict.values (active_dialogs (state_after c s)))) /\
      (Database.save_commits s = true ->
       Database.committed_dialogs (log_of c s)
       = Some (active_dialogs (state_after c s)))) /\
  (admin_of_client (active_dialogs s) chat_id = None ->
   ~ In chat_id (Dict.values (active_dialogs s)) /\
   state_after c s = s /\ log_of c s = [Send chat_id text]).
Proof.
  unfold safe_send_message. unfold_handler. simpl. rewrite B. simpl.
  destruct (admin_of_client (active_dialogs s) chat_id) as [a0|] eqn:F; simpl.
  - pose proof (admin_of_client_get _ W F) as G.
    split; [reflexivity|]. split; [repeat split|]. split; [|discriminate].
    intros a E. inversion E; subst a0.
    split; [exact G|]. split; [reflexivity|]. split; [now apply get_del_same|].
    split; [intros k N; apply get_del_other; congruence|].
    split; [reflexivity|]. split.
    + intros Distinct. now apply value_gone_after_del.
    + intros Accepts. unfold Database.committed_dialogs. simpl.
      change (Database.save_commits
                (with_active_dialogs s (Dict.del (active_dialogs s) a)))
        with (Database.save_commits s).
      now rewrite Accepts.
  - split; [reflexivity|]. split; [repeat split|]. split; [discriminate|].
    intros _. split; [now apply admin_of_client_None | auto].
Qed.

Lemma safe_send_blocked_drops_dialog_witness :
  let c := safe_send_message (fun _ _ => Blocked) 100 MsgReceived in
  active_dialogs (state_after c Scenario.both_busy) = [(2, 200)] /\
  ~ In 100 (Dict.values (active_dialogs (state_after c Scenario.both_busy))) /\
  Database.committed_dialogs (log_of c Scenario.both_busy) = Some [(2, 200)].
Proof.
  assert (W : Dict.wf (active_dialogs Scenario.both_busy))
    by (repeat constructor; simpl; intuition discriminate).
  assert (D : NoDup (Dict.values (active_dialogs Scenario.both_busy)))
    by (repeat constructor; simpl; intuition discriminate).
  destruct (@safe_send_blocked_drops_dialog (fun _ _ => Blocked) 100 MsgReceived
              Scenario.both_busy W eq_refl) as (_ & _ & Bound & _).
  destruct (Bound 1 eq_refl) as (_ & E & _ & _ & _ & Gone & Saved).
  cbv zeta. split; [rewrite E; reflexivity|]. split; [exact (Gone D)|].
  rewrite (Saved eq_refl), E. reflexivity.
Defined.

(** With the table that the '#tag' path can produce, two admins bound to
    client 100, a blocked chat 100 loses only the first entry. *)
Example blocked_chat_with_two_admins :
  active_dialogs
    (state_after (safe_send_message (fun _ _ => Blocked) 100 MsgReceived)
                 (with_active_dialogs Scenario.ann_with_client [(1, 100); (2, 100)]))
  = [(2, 100)].
Proof. reflexivity. Qed.



(** [safe_send_message] returns normally and leaves the registry alone. *)
Lemma safe_send_message_safe
  (tg : list event -> event -> reply) (chat_id : Z) (text : msg) (w : world) :
  fst (safe_send_message tg chat_id text w) <> None /\
  same_registry (mem w) (mem (snd (safe_send_message tg chat_id text w))).
Proof.
  unfold safe_send_message. unfold_handler. simpl.
  destruct (tg (log w) (Send chat_id text)) as [|new| |]; simpl.
  - split; [discriminate | repeat split].
  - destruct (truthy new); [destruct new as [n|]|]; simpl;
      try solve [split; [discriminate | repeat split]].
    destruct (admin_of_client (active_dialogs (mem w)) chat_id); simpl;
      split_replies; (split; [discriminate | repeat split]).
  - destruct (admin_of_client (active_dialogs (mem w)) chat_id); simpl;
      (split; [discriminate | repeat split]).
  - split; [discriminate | repeat split].
Qed.

(** ** Routing of messages *)

Section Keeping.
Variable P : State -> Prop.

Lemma keeps_ret {A} (a : A) : keeps P (ret a).
Proof. intros w Hw. exact Hw. Qed.

Lemma keeps_bind {A B} (m : M A) (f : A -> M B) :
  keeps P m -> (forall a, keeps P (f a)) -> keeps P (bind m f).
Proof.
  intros Hm Hf w Hw. unfold bind. specialize (Hm w Hw).
  destruct (m w) as [[a|] w1]; simpl in *; auto. now apply Hf.
Qed.

Lemma keeps_get_bind {B} (f : State -> M B) :
  (forall s, P s -> keeps P (f s)) -> keeps P (bind get_state f).
Proof. intros Hf w Hw. unfold bind, get_state. now apply Hf. Qed.

Lemma keeps_catch {A} (m h : M A) : keeps P m -> keeps P h -> keeps P (catch m h).
Proof.
  intros Hm Hh w Hw. unfold catch. specialize (Hm w Hw).
  destruct (m w) as [[a|] w1]; simpl in *; auto.
Qed.

Lemma keeps_put_state s : P s -> keeps P (put_state s).
Proof. intros Hs w _. exact Hs. Qed.

Lemma keeps_emit e : keeps P (emit e).
Proof. intros w Hw. exact Hw. Qed.

Lemma keeps_call tg e : keeps P (call tg e).
Proof. intros w Hw. unfold call. now destruct (tg (log w) e). Qed.

Lemma keeps_save_state : keeps P save_state.
Proof. intros w Hw. exact Hw. Qed.
End Keeping.

Lemma same_registry_trans s1 s2 s3 :
  same_registry s1 s2 -> same_registry s2 s3 -> same_registry s1 s3.
Proof. unfold same_registry. intuition congruence. Qed.

Lemma keeps_registry_safe_send s0 tg chat_id text :
  keeps (same_registry s0) (safe_send_message tg chat_id text).
Proof.
  intros w Hw. eapply same_registry_trans; [exact Hw|].
  apply safe_send_message_safe.
Qed.

Lemma never_raises_catch {A} (m h : M A) : never_raises h -> never_raises (catch m h).
Proof.
  intros Hh w. unfold catch. destruct (m w) as [[a|] w1]; simpl; [discriminate | apply Hh].
Qed.

Ltac keeps_step :=
  match goal with
  | |- keeps _ (bind get_state _) => apply keeps_get_bind; intros ? ?
  | |- keeps _ (bind _ _) => apply keeps_bind; [| intros ?]
  | |- keeps _ (catch _ _) => apply keeps_catch
  | |- keeps _ (ret _) => apply keeps_ret
  | |- keeps _ (put_state _) => apply keeps_put_state
  | |- keeps _ (emit _) => apply keeps_emit
  | |- keeps _ (call _ _) => apply keeps_call
  | |- keeps _ save_state => apply keeps_save_state
  | |- keeps _ (save_message_to_history _ _ _) => apply keeps_emit
  | |- keeps _ (safe_send_message _ _ _) => apply keeps_registry_safe_send
  | |- keeps _ (match ?x with _ => _ end) => destruct x
  end.

(** [handle_message] returns normally and leaves the registry alone. *)
Lemma handle_message_total_and_frame
  (tg : list event -> event -> reply) (lower : string -> string)
  (admin_chat user_id chat_id : Z) (message : string) (s : State) :
  fst (run (handle_message tg lower admin_chat user_id chat_id message) s) = Some tt /\
  same_registry s (state_after (handle_message tg lower admin_chat user_id chat_id message) s).
Proof.
  split.
  - assert (never_raises (handle_message tg lower admin_chat user_id chat_id message)) as N.
    { unfold handle_message. apply never_raises_catch.
      intros w. unfold bind, ret.
      destruct (safe_send_message_safe tg chat_id MsgHandlerError w) as [X _].
      destruct (safe_send_message tg chat_id MsgHandlerError w) as [[b|] w1];
        simpl in *; congruence. }
    specialize (N (mkWorld s [])). unfold run.
    destruct (fst (handle_message tg lower admin_chat user_id chat_id message (mkWorld s [])))
      as [[]|]; congruence.
  - assert (keeps (same_registry s)
                  (handle_message tg lower admin_chat user_id chat_id message)) as K.
    { unfold handle_message. cbv zeta.
      repeat keeps_step;
        match goal with
        | H : same_registry _ ?s1 |- same_registry _ (with_active_dialogs ?s1 _) =>
            unfold same_registry in *; simpl; exact H
        end. }
    apply (K (mkWorld s [])). repeat split.
Qed.

(** X15. [handle_message] never raises, and it never changes a tag, a
    level, a password or a status flag: whatever the sender, the text and
    the network, only the table of dialogs can differ afterwards. *)
Theorem handle_message_safe
  (tg : list event -> event -> reply) (lower : string -> string)
  (admin_chat user_id chat_id : Z) (message : string) (s : State) :
  fst (run (handle_message tg lower admin_chat user_id chat_id message) s) = Some tt /\
  same_registry s (state_after (handle_message tg lower admin_chat user_id chat_id message) s).
Proof. exact (@handle_message_total_and_frame tg lower admin_chat user_id chat_id message s). Qed.

(** A text that does not begin with '#' takes the default branch. *)
Lemma not_a_tag (message : string) :
  (forall rest, message <> String "#" rest) ->
  forall (A : Type) (x : string -> A) (y : A),
    match message with String "#" rest => x rest | _ => y end = y.
Proof.
  intros N A x y.
  destruct message as [|[[] [] [] [] [] [] [] []] r]; try reflexivity.
  exfalso. now apply (N r).
Qed.

(** X16. A registered admin who is not in a dialog writes to the bot: the
    message is dropped. Nothing is sent, nothing is stored, and the state
    is as before, also when the text begins with '#'. *)
Theorem admin_without_dialog_is_dropped
  (tg : list event -> event -> reply) (lower : string -> string)
  (admin_chat user_id chat_id : Z) (message : string) (s : State)
  (Admin : Dict.contains (admin_levels s) user_id = true)
  (Idle : Dict.get (active_dialogs s) user_id = None) :
  state_after (handle_message tg lower admin_chat user_id chat_id message) s = s /\
  log_of (handle_message tg lower admin_chat user_id chat_id message) s = [].
Proof.
  unfold handle_message. run_handler. rewrite Admin, Idle. simpl. auto.
Qed.

Lemma admin_without_dialog_is_dropped_witness :
  log_of (handle_message reliable lower_ascii Scenario.admin_chat 2 2 "#ann")
         Scenario.ann_with_client = [].
Proof.
  apply (@admin_without_dialog_is_dropped reliable lower_ascii Scenario.admin_chat 2 2
           "#ann" Scenario.ann_with_client eq_refl eq_refl).
Defined.

(** The client of a dialog has a first admin in the table; with one entry
    per admin and pairwise distinct clients it is the admin of the dialog. *)
Lemma first_admin_of_client (d : Dict.t Z Z) (user_id client_id : Z) :
  Dict.get d user_id = Some client_id ->
  exists a, admin_of_client d client_id = Some a /\
            (Dict.wf d -> NoDup (Dict.values d) -> a = user_id).
Proof.
  intros G.
  destruct (admin_of_client d client_id) as [a|] eqn:F.
  - exists a. split; [reflexivity|]. intros W Distinct.
    apply (@same_client_same_admin d a user_id client_id Distinct); auto.
    now apply admin_of_client_get.
  - apply admin_of_client_None in F. apply get_In_values in G. contradiction.
Qed.

(** X17. A registered admin in a dialog writes to the bot: the text is sent
    to the client of the dialog under the admin's tag ("Admin" when there
    is none), and what follows depends on the reply to that send.
    - Delivered: the message is written to the history and the state is
      unchanged.
    - An error other than a block or a usable migration (this includes a
      migration without a new chat id): nothing is written to the history,
      the admin is sent the failure notice and, when that notice is
      delivered, the state is unchanged.
    - The client has blocked the bot: the dialog of the first admin bound to
      that client is removed (the writing admin's own dialog when the table
      has one entry per admin and distinct clients), [save_state()] is
      called, nothing is written to the history and the admin is sent the
      failure notice.
    - The chat has migrated to a new id: that first admin is bound to the
      new chat, [save_state()] is called, the history is rewritten and the
      text is sent again to the new chat; when this is delivered the message
      is written to the history under the old client id. *)
Theorem admin_reply_is_forwarded
  (tg : list event -> event -> reply) (lower : string -> string)
  (admin_chat user_id chat_id client_id : Z) (message : string) (s : State)
  (Admin : Dict.contains (admin_levels s) user_id = true)
  (G : Dict.get (active_dialogs s) user_id = Some client_id) :
  let c := handle_message tg lower admin_chat user_id chat_id message in
  let answer :=
    MsgAdminReply (Dict.get_default (admin_tags s) user_id "Admin"%string) message in
  (tg [] (Send client_id answer) = Ok ->
   state_after c s = s /\
   log_of c s = [Send client_id answer; History user_id client_id message]) /\
  (tg [] (Send client_id answer) = Failed \/
   (exists new, tg [] (Send client_id answer) = Migrated new /\ truthy new = false) ->
   tg [Send client_id answer] (Send chat_id MsgSendToClientFailed) = Ok ->
   state_after c s = s /\
   log_of c s = [Send client_id answer; Send chat_id MsgSendToClientFailed]) /\
  (tg [] (Send client_id answer) = Blocked ->
   exists a,
     admin_of_client (active_dialogs s) client_id = Some a /\
     (Dict.wf (active_dialogs s) -> NoDup (Dict.values (active_dialogs s)) ->
      a = user_id) /\
     let s1 := with_active_dialogs s (Dict.del (active_dialogs s) a) in
     (tg [Send client_id answer; SaveState s1] (Send chat_id MsgSendToClientFailed) = Ok ->
      state_after c s = s1 /\
      log_of c s = [Send client_id answer; SaveState s1;
                    Send chat_id MsgSendToClientFailed])) /\
  (forall new_chat_id,
      tg [] (Send client_id answer) = Migrated (Some new_chat_id) ->
      new_chat_id <> 0 ->
      exists a,
        admin_of_client (active_dialogs s) client_id = Some a /\
        (Dict.wf (active_dialogs s) -> NoDup (Dict.values (active_dialogs s)) ->
         a = user_id) /\
        let s1 := with_active_dialogs s (Dict.set (active_dialogs s) a new_chat_id) in
        (tg [Send client_id answer; SaveState s1; HistoryRewrite client_id new_chat_id]
            (Send new_chat_id answer) = Ok ->
         state_after c s = s1 /\
         log_of c s = [Send client_id answer; SaveState s1;
                       HistoryRewrite client_id new_chat_id;
                       Send new_chat_id answer;
                       History user_id client_id message])).
Proof.
  cbv zeta. split; [|split; [|split]].
  - intros R. unfold handle_message, safe_send_message. run_handler.
    rewrite Admin, G. simpl. rewrite R. simpl. auto.
  - intros [R1|(new & R1 & Falsy)] R2;
      unfold handle_message, safe_send_message; run_handler;
      rewrite Admin, G; simpl; rewrite R1; simpl.
    + rewrite R2. simpl. auto.
    + rewrite Falsy. destruct new; simpl; rewrite R2; simpl; auto.
  - intros R1. destruct (first_admin_of_client _ _ G) as (a & F & Same).
    exists a. split; [exact F|]. split; [exact Same|]. intros R2.
    unfold handle_message, safe_send_message. unfold_handler. simpl.
    rewrite Admin, G. simpl. rewrite R1. simpl. rewrite F. simpl.
    rewrite R2. simpl. auto.
  - intros new_chat_id R1 NZ. destruct (first_admin_of_client _ _ G) as (a & F & Same).
    exists a. split; [exact F|]. split; [exact Same|]. intros R2.
    apply Z.eqb_neq in NZ.
    unfold handle_message, safe_send_message. unfold_handler. simpl.
    rewrite Admin, G. simpl. rewrite R1. simpl. rewrite NZ. simpl. rewrite F. simpl.
    rewrite R2. simpl. auto.
Qed.

Lemma admin_reply_is_forwarded_witness :
  log_of (handle_message reliable lower_ascii Scenario.admin_chat 1 1 "hello")
         Scenario.ann_with_client
  = [Send 100 (MsgAdminReply "ann" "hello"); History 1 100 "hello"].
Proof.
  destruct (@admin_reply_is_forwarded reliable lower_ascii Scenario.admin_chat 1 1 100
              "hello" Scenario.ann_with_client eq_refl eq_refl) as [Delivered _].
  apply (Delivered eq_refl).
Defined.

(** The blocked case on a concrete table: the admin's dialog is gone. *)
Example admin_reply_to_blocked_client :
  let tg := fun (l : list event) (e : event) =>
              match e with Send 100 _ => Blocked | _ => Ok end in
  let c := handle_message tg lower_ascii Scenario.admin_chat 1 1 "hello" in
  active_dialogs (state_after c Scenario.ann_with_client) = [] /\
  log_of c Scenario.ann_with_client
  = [Send 100 (MsgAdminReply "ann" "hello");
     SaveState (state_after c Scenario.ann_with_client);
     Send 1 MsgSendToClientFailed].
Proof. split; reflexivity. Qed.

(** X18. A client who is in a dialog writes a text that does not begin with
    '#': the text goes to the admin of the dialog and is written to the
    history. A client who is in no dialog gets the text announced in the
    admins' chat and receives an acknowledgement. In both cases the state
    is unchanged when the messages are delivered. *)
Theorem client_message_is_routed
  (tg : list event -> event -> reply) (lower : string -> string)
  (admin_chat user_id chat_id : Z) (message : string) (s : State)
  (Client : Dict.contains (admin_levels s) user_id = false)
  (Plain : forall rest, message <> String "#" rest) :
  let c := handle_message tg lower admin_chat user_id chat_id message in
  (forall admin_id,
      admin_of_client (active_dialogs s) chat_id = Some admin_id -> admin_id <> 0 ->
      tg [] (Send admin_id (MsgFromClient message)) = Ok ->
      state_after c s = s /\
      log_of c s = [Send admin_id (MsgFromClient message); History chat_id admin_id message]) /\
  (admin_of_client (active_dialogs s) chat_id = None ->
   tg [] (Send admin_chat (MsgNewClientMessage chat_id message)) = Ok ->
   tg [Send admin_chat (MsgNewClientMessage chat_id message)] (Send chat_id MsgReceived) = Ok ->
   state_after c s = s /\
   log_of c s = [Send admin_chat (MsgNewClientMessage chat_id message);
                 Send chat_id MsgReceived]).
Proof.
  split.
  - intros admin_id F NZ R. apply Z.eqb_neq in NZ.
    unfold handle_message, safe_send_message. run_handler.
    rewrite Client. rewrite (not_a_tag Plain). rewrite F. simpl. rewrite NZ. simpl.
    rewrite R. simpl. auto.
  - intros F R1 R2.
    unfold handle_message, safe_send_message. run_handler.
    rewrite Client. rewrite (not_a_tag Plain). rewrite F. simpl.
    rewrite R1. simpl. rewrite R2. simpl. auto.
Qed.

Lemma client_message_is_routed_witness :
  log_of (handle_message reliable lower_ascii Scenario.admin_chat 100 100 "help me")
         Scenario.ann_with_client
  = [Send 1 (MsgFromClient "help me"); History 100 1 "help me"] /\
  log_of (handle_message reliable lower_ascii Scenario.admin_chat 300 300 "help me")
         Scenario.ann_with_client
  = [Send Scenario.admin_chat (MsgNewClientMessage 300 "help me"); Send 300 MsgReceived].
Proof.
  assert (Plain : forall rest, "help me"%string <> String "#" rest) by (intros; discriminate).
  split.
  - destruct (@client_message_is_routed reliable lower_ascii Scenario.admin_chat 100 100
                "help me" Scenario.ann_with_client eq_refl Plain) as [Bound _].
    apply (Bound 1 eq_refl ltac:(discriminate) eq_refl).
  - destruct (@client_message_is_routed reliable lower_ascii Scenario.admin_chat 300 300
                "help me" Scenario.ann_with_client eq_refl Plain) as [_ Unbound].
    apply (Unbound eq_refl eq_refl eq_refl).
Defined.

(** ** Selecting an admin by tag *)

(** The scan is decided by the first entry whose tag matches. *)
Lemma scan_stops_at_first_match
  (lower : string -> string) (before after : Dict.t Z string) (admin_id : Z) (tag : string)
  (status : Dict.t Z bool) (requested_tag : string)
  (Earlier : forall k t, In (k, t) before -> lower t <> requested_tag) :
  (lower tag = requested_tag ->
   find_admin_by_tag lower (before ++ (admin_id, tag) :: after) status requested_tag
   = if Dict.get_default status admin_id true then ScanSelected admin_id
     else ScanAway admin_id tag) /\
  find_admin_by_tag lower before status requested_tag = ScanNone.
Proof.
  induction before as [|[k t] r IH]; simpl.
  - split; [|reflexivity]. intros ->. rewrite String.eqb_refl.
    now destruct (Dict.get_default status admin_id true).
  - assert (String.eqb (lower t) requested_tag = false) as N.
    { apply String.eqb_neq. apply (Earlier k t). now left. }
    rewrite N. apply IH. intros k' t' I. apply (Earlier k' t'). now right.
Qed.

(** X19. The scan for a tag stops at the first admin, in the order of
    registration, whose tag lowers to the requested one: that admin decides
    the outcome (selected when active, "away" when not), and an admin
    registered later under the same tag is never reached. When no tag
    matches, nobody is found. *)
Theorem find_admin_by_tag_first_match
  (lower : string -> string) (before after : Dict.t Z string) (admin_id : Z) (tag : string)
  (status : Dict.t Z bool) (requested_tag : string)
  (Earlier : forall k t, In (k, t) before -> lower t <> requested_tag) :
  (lower tag = requested_tag ->
   find_admin_by_tag lower (before ++ (admin_id, tag) :: after) status requested_tag
   = if Dict.get_default status admin_id true then ScanSelected admin_id
     else ScanAway admin_id tag) /\
  find_admin_by_tag lower before status requested_tag = ScanNone.
Proof. exact (@scan_stops_at_first_match lower before after admin_id tag status requested_tag Earlier). Qed.

Lemma find_admin_by_tag_first_match_witness :
  find_admin_by_tag lower_ascii [(1, "ann"); (2, "Sam"); (3, "sam")]%string [] "sam"
  = ScanSelected 2.
Proof.
  refine (proj1 (@find_admin_by_tag_first_match lower_ascii [(1, "ann"%string)] [(3, "sam"%string)]
                   2 "Sam" [] "sam" _) eq_refl).
  intros k t [E|[]]. inversion E; subst. discriminate.
Defined.



(** X21. A '#tag' message of a client that finds an active, free admin
    binds that admin to the chat of the client in memory: [save_state()] is
    called first on the table with the new entry, then the client and the
    admin are told; the entries of the other admins and the registry are as
    before. The call commits the new table when the tags in memory are
    pairwise distinct and the levels are 1 or 2. *)
Theorem tag_selection_binds_client
  (tg : list event -> event -> reply) (lower : string -> string)
  (admin_chat user_id chat_id selected_admin : Z) (rest : string) (s : State)
  (Client : Dict.contains (admin_levels s) user_id = false)
  (F : find_admin_by_tag lower (admin_tags s) (admin_active_status s) (lower rest)
       = ScanSelected selected_admin)
  (NZ : selected_admin <> 0)
  (Free : Dict.contains (active_dialogs s) selected_admin = false) :
  let c := handle_message tg lower admin_chat user_id chat_id (String "#" rest) in
  let s' := with_active_dialogs s (Dict.set (active_dialogs s) selected_admin chat_id) in
  tg [SaveState s'] (Send chat_id (MsgAdminSelected (lower rest))) = Ok ->
  tg [SaveState s'; Send chat_id (MsgAdminSelected (lower rest))]
     (Send selected_admin MsgClientChoseYou) = Ok ->
  state_after c s = s' /\
  Dict.get (active_dialogs s') selected_admin = Some chat_id /\
  (forall k, k <> selected_admin ->
             Dict.get (active_dialogs s') k = Dict.get (active_dialogs s) k) /\
  log_of c s = [SaveState s'; Send chat_id (MsgAdminSelected (lower rest));
                Send selected_admin MsgClientChoseYou] /\
  (Database.save_commits s = true ->
   Database.committed_dialogs (log_of c s) = Some (active_dialogs s')).
Proof.
  intros c s' R1 R2. apply Z.eqb_neq in NZ. subst c.
  unfold handle_message, safe_send_message. run_handler.
  rewrite Client, F. simpl. rewrite NZ, Free. simpl. fold s'.
  rewrite R1. simpl. rewrite R2. simpl.
  split; [reflexivity|]. split; [apply get_set_same|].
  split; [intros k N; apply get_set_other; congruence|].
  split; [reflexivity|].
  intros Accepts. unfold Database.committed_dialogs. simpl.
  change (Database.save_commits s') with (Database.save_commits s).
  now rewrite Accepts.
Qed.

Lemma tag_selection_binds_client_witness :
  state_after (handle_message reliable lower_ascii Scenario.admin_chat 300 300 "#BOB")
              Scenario.ann_with_client
  = with_active_dialogs Scenario.ann_with_client [(1, 100); (2, 300)].
Proof.
  apply (@tag_selection_binds_client reliable lower_ascii Scenario.admin_chat 300 300 2
           "BOB" Scenario.ann_with_client eq_refl eq_refl ltac:(discriminate) eq_refl
           eq_refl eq_refl).
Defined.

(** ** Deleting the entries that a test selects *)

Section DeleteSelected.
Context {K V : Type} `{EqDec K}.
Implicit Types (d : Dict.t K V) (k : K) (p : K * V -> bool).

Lemma existsb_eqb_In k (ks : list K) : existsb (eqb k) ks = true <-> In k ks.
Proof.
  rewrite existsb_exists. split.
  - intros [x [I E]]. destruct (eqb_spec k x); [now subst | discriminate].
  - intros I. exists k. split; auto. apply eqb_refl.
Qed.

Lemma get_del_keys d (ks : list K) k :
  Dict.wf d ->
  Dict.get (fold_left (fun d' k' => Dict.del d' k') ks d) k
  = if existsb (eqb k) ks then None else Dict.get d k.
Proof.
  revert d. induction ks as [|k0 r IH]; intros d W; simpl; auto.
  rewrite IH by (now apply wf_del).
  destruct (eqb_spec k k0) as [->|N]; simpl.
  - rewrite get_del_same by assumption. now destruct (existsb (eqb k0) r).
  - rewrite get_del_other by congruence. reflexivity.
Qed.

Lemma keys_filter_incl d p k : In k (Dict.keys (filter p d)) -> In k (Dict.keys d).
Proof.
  unfold Dict.keys. induction d as [|[j w] r IH]; simpl; auto.
  destruct (p (j, w)); simpl; tauto.
Qed.

Lemma in_keys_filter d p k :
  Dict.wf d ->
  (In k (Dict.keys (filter p d)) <-> exists v, Dict.get d k = Some v /\ p (k, v) = true).
Proof.
  unfold Dict.wf. induction d as [|[j w] r IH]; simpl; intros W.
  - split; [tauto | intros [v [E _]]; discriminate].
  - inversion W; subst. specialize (IH H3).
    destruct (eqb_spec j k) as [->|N].
    + split.
      * intros I. exists w. split; auto.
        destruct (p (k, w)) eqn:Pk; auto.
        exfalso. apply H2. eapply keys_filter_incl; eauto.
      * intros [v [E Pv]]. inversion E; subst. rewrite Pv. now left.
    + rewrite <- IH. destruct (p (j, w)); simpl; [|tauto].
      unfold Dict.keys. simpl. intuition.
Qed.

(** After the selected entries are deleted one by one, a key is bound as
    before when the test rejects its entry and is unbound otherwise. *)
Lemma get_after_deleting_selected d p k :
  Dict.wf d ->
  Dict.get (fold_left (fun d' k' => Dict.del d' k') (Dict.keys (filter p d)) d) k
  = match Dict.get d k with
    | Some v => if p (k, v) then None else Some v
    | None => None
    end.
Proof.
  intros W. rewrite get_del_keys by assumption.
  destruct (existsb (eqb k) (Dict.keys (filter p d))) eqn:E.
  - apply existsb_eqb_In in E. apply (@in_keys_filter d p k W) in E.
    destruct E as [v [G Pv]]. now rewrite G, Pv.
  - destruct (Dict.get d k) as [v|] eqn:G; auto.
    destruct (p (k, v)) eqn:Pv; auto.
    assert (existsb (eqb k) (Dict.keys (filter p d)) = true); [|congruence].
    apply existsb_eqb_In. apply (@in_keys_filter d p k W). eauto.
Qed.
End DeleteSelected.

(** ** The password sweep *)

(** X22. The hourly sweep removes exactly the passwords that
    [set_tag_command] would refuse as expired at that moment: a password
    issued at most 24 hours earlier is kept with its time of issue, an older
    one is gone, and nothing else in the state changes. *)
Theorem sweep_passwords_removes_exactly_expired
  (current_time : datetime) (s : State)
  (W : Dict.wf (one_time_passwords s)) :
  let s' := sweep_passwords current_time s in
  (forall password,
      Dict.get (one_time_passwords s') password
      = match Dict.get (one_time_passwords s) password with
        | Some issued => if not_expired current_time issued then Some issued else None
        | None => None
        end) /\
  (forall password issued,
      Dict.get (one_time_passwords s') password = Some issued ->
      current_time - issued <= microseconds_per_day) /\
  admin_tags s' = admin_tags s /\ admin_levels s' = admin_levels s /\
  active_dialogs s' = active_dialogs s /\ admin_active_status s' = admin_active_status s.
Proof.
  intros s'.
  assert (Spec : forall password,
             Dict.get (one_time_passwords s') password
             = match Dict.get (one_time_passwords s) password with
               | Some issued => if not_expired current_time issued then Some issued else None
               | None => None
               end).
  { intros password. subst s'. unfold sweep_passwords, expired_passwords. simpl.
    change (map fst (filter ?p ?d)) with (Dict.keys (filter p d)).
    rewrite get_after_deleting_selected by assumption.
    destruct (Dict.get (one_time_passwords s) password) as [issued|]; auto.
    simpl. unfold not_expired. rewrite Z.leb_antisym.
    now destruct (microseconds_per_day <? current_time - issued). }
  split; [exact Spec|]. split.
  - intros password issued G. rewrite Spec in G.
    destruct (Dict.get (one_time_passwords s) password) as [i|]; [|discriminate].
    destruct (not_expired current_time i) eqn:E; [|discriminate].
    inversion G; subst. unfold not_expired in E. now apply Z.leb_le.
  - repeat split.
Qed.

Lemma sweep_passwords_removes_exactly_expired_witness :
  let s := mkState [] [] [] [("old", 0); ("new", 20 * Scenario.hour)]%string [] in
  Dict.get (one_time_passwords (sweep_passwords (30 * Scenario.hour) s)) "old"%string = None /\
  Dict.get (one_time_passwords (sweep_passwords (30 * Scenario.hour) s)) "new"%string
  = Some (20 * Scenario.hour).
Proof.
  cbv zeta.
  set (s := mkState [] [] [] [("old", 0); ("new", 20 * Scenario.hour)]%string []).
  assert (W : Dict.wf (one_time_passwords s))
    by (repeat constructor; simpl; intuition discriminate).
  destruct (@sweep_passwords_removes_exactly_expired (30 * Scenario.hour) s W) as [Spec _].
  split; rewrite Spec; reflexivity.
Defined.

(** ** The cache *)

(** *** Rounding *)

Lemma round_half_even_floor (n d : Z) :
  0 < d -> n / d <= Double.round_half_even n d <= n / d + 1.
Proof.
  intros D. unfold Double.round_half_even.
  destruct (2 * (n mod d) <? d); [lia|].
  destruct (d <? 2 * (n mod d)); [lia|].
  destruct (Z.even (n / d)); lia.
Qed.

Lemma round_half_even_below (n d bound s : Z) :
  0 < d -> n <= bound * d - s -> d < 2 * s -> Double.round_half_even n d < bound.
Proof.
  intros D N S.
  pose proof (Z.div_mod n d ltac:(lia)) as E.
  pose proof (Z.mod_pos_bound n d D) as R.
  assert (Q : n / d <= bound - 1) by nia.
  unfold Double.round_half_even.
  destruct (Z.ltb_spec (2 * (n mod d)) d) as [L|L]; [lia|].
  assert (n / d <= bound - 2) by nia.
  destruct (d <? 2 * (n mod d)); [lia|].
  destruct (Z.even (n / d)); lia.
Qed.

Lemma log2_quot_lower (n d : Z) :
  0 < n -> 0 < d ->
  (0 <= Double.log2_quot n d -> d * 2 ^ Double.log2_quot n d <= n) /\
  (Double.log2_quot n d < 0 -> d <= n * 2 ^ (- Double.log2_quot n d)).
Proof.
  intros N D. unfold Double.log2_quot.
  pose proof (Z.log2_spec n N) as [Ln _].
  pose proof (Z.log2_spec d D) as [_ Ld].
  pose proof (Z.log2_nonneg n) as Pn. pose proof (Z.log2_nonneg d) as Pd.
  set (a := Z.log2 n) in *. set (b := Z.log2 d) in *.
  destruct (Z.leb_spec 0 (a - b)) as [K|K].
  - destruct (Z.ltb_spec n (d * 2 ^ (a - b))) as [T|T].
    + split; intros S.
      * assert (E : 2 ^ a = 2 ^ (a - b - 1) * 2 ^ (Z.succ b)).
        { rewrite <- Z.pow_add_r by lia. f_equal. lia. }
        assert (0 < 2 ^ (a - b - 1)) by (apply Z.pow_pos_nonneg; lia).
        nia.
      * assert (a - b = 0) as -> by lia. simpl.
        assert (b = a) as -> by lia. rewrite Z.pow_succ_r in Ld by lia. lia.
    + split; [lia | lia].
  - destruct (Z.ltb_spec (n * 2 ^ (- (a - b))) d) as [T|T].
    + split; [lia|]. intros _.
      assert (E : 2 ^ (Z.succ b) = 2 ^ a * 2 ^ (- (a - b - 1))).
      { rewrite <- Z.pow_add_r by lia. f_equal. lia. }
      assert (0 < 2 ^ (- (a - b - 1))) by (apply Z.pow_pos_nonneg; lia).
      nia.
    + split; [lia | auto].
Qed.

(** The quotient is at least [2 ^ 52] units of the last place. *)
Lemma true_divide_pos_lower (n d : Z) :
  0 < n -> 0 < d ->
  let e := Double.exponent (Double.true_divide_pos n d) in
  (0 <= e -> 2 ^ 52 * (d * 2 ^ e) <= n) /\
  (e < 0 -> 2 ^ 52 * d <= n * 2 ^ (- e)).
Proof.
  intros N D. unfold Double.true_divide_pos. cbn [Double.exponent].
  destruct (@log2_quot_lower n d N D) as [Up Down].
  set (k := Double.log2_quot n d) in *. cbv zeta.
  split; intros E.
  - specialize (Up ltac:(lia)).
    replace k with (52 + (k - 52)) in Up by lia.
    rewrite Z.pow_add_r in Up by lia. lia.
  - destruct (Z.lt_ge_cases k 0) as [K|K].
    + specialize (Down K).
      replace (- (k - 52)) with (52 + - k) by lia.
      rewrite Z.pow_add_r by lia.
      assert (0 < 2 ^ 52) by (apply Z.pow_pos_nonneg; lia). nia.
    + specialize (Up K).
      assert (X : 2 ^ 52 = 2 ^ k * 2 ^ (- (k - 52))).
      { rewrite <- Z.pow_add_r by lia. f_equal. lia. }
      assert (0 < 2 ^ (- (k - 52))) by (apply Z.pow_pos_nonneg; lia).
      rewrite X. nia.
Qed.

Lemma lt_int_pos (n ttl : Z) :
  0 < n -> 0 <= ttl <= 2 ^ 34 ->
  Double.lt_int (Double.true_divide_pos n 1000000) ttl = (n <? ttl * 1000000).
Proof.
  intros N [T0 T1].
  destruct (@true_divide_pos_lower n 1000000 N ltac:(lia)) as [Up Down].
  unfold Double.lt_int.
  remember (Double.true_divide_pos n 1000000) as x eqn:X.
  unfold Double.true_divide_pos in X.
  set (e := Double.log2_quot n 1000000 - 52) in *.
  assert (Ee : Double.exponent x = e) by (subst x; reflexivity).
  assert (Em : Double.mantissa x
               = if 0 <=? e then Double.round_half_even n (1000000 * 2 ^ e)
                 else Double.round_half_even (n * 2 ^ (- e)) 1000000)
    by (subst x; reflexivity).
  rewrite Ee in *. rewrite Em. clear X Ee Em.
  destruct (Z.leb_spec 0 e) as [E|E].
  - specialize (Up E).
    assert (P : 0 < 2 ^ e) by (apply Z.pow_pos_nonneg; lia).
    assert (D : 0 < 1000000 * 2 ^ e) by lia.
    pose proof (@round_half_even_floor n (1000000 * 2 ^ e) D) as [F _].
    assert (2 ^ 52 <= n / (1000000 * 2 ^ e)) by (apply Z.div_le_lower_bound; lia).
    assert (2 ^ 34 < 2 ^ 52) by reflexivity.
    assert (2 ^ 52 <= 2 ^ 52 * 2 ^ e) by nia.
    destruct (Z.ltb_spec (Double.round_half_even n (1000000 * 2 ^ e) * 2 ^ e) ttl);
      destruct (Z.ltb_spec n (ttl * 1000000)); auto; nia.
  - specialize (Down E).
    assert (P : 0 < 2 ^ (- e)) by (apply Z.pow_pos_nonneg; lia).
    destruct (Z.ltb_spec n (ttl * 1000000)) as [L|L].
    + apply Z.ltb_lt.
      assert (S : 2 ^ 19 <= 2 ^ (- e)).
      { apply Z.pow_le_mono_r; [lia|].
        destruct (Z.le_gt_cases 19 (- e)) as [|Small]; auto. exfalso.
        assert (2 ^ (- e) <= 2 ^ 18) by (apply Z.pow_le_mono_r; lia).
        assert (2 ^ 52 = 2 ^ 34 * 2 ^ 18) by reflexivity.
        nia. }
      apply (@round_half_even_below (n * 2 ^ (- e)) 1000000 (ttl * 2 ^ (- e)) (2 ^ (- e)));
        [lia | nia |].
      change (2 ^ 19) with 524288 in S. lia.
    + apply Z.ltb_ge.
      pose proof (@round_half_even_floor (n * 2 ^ (- e)) 1000000 ltac:(lia)) as [F _].
      assert (ttl * 2 ^ (- e) <= n * 2 ^ (- e) / 1000000)
        by (apply Z.div_le_lower_bound; nia).
      lia.
Qed.

Lemma mantissa_pos (n d : Z) :
  0 < n -> 0 < d -> 0 < Double.mantissa (Double.true_divide_pos n d).
Proof.
  intros N D.
  destruct (@true_divide_pos_lower n d N D) as [Up Down].
  unfold Double.true_divide_pos in *. cbn [Double.exponent Double.mantissa] in *.
  set (e := Double.log2_quot n d - 52) in *.
  assert (0 < 2 ^ 52) by reflexivity.
  destruct (Z.leb_spec 0 e) as [E|E].
  - specialize (Up E).
    assert (P : 0 < 2 ^ e) by (apply Z.pow_pos_nonneg; lia).
    pose proof (@round_half_even_floor n (d * 2 ^ e) ltac:(lia)) as [F _].
    assert (2 ^ 52 <= n / (d * 2 ^ e)) by (apply Z.div_le_lower_bound; lia).
    lia.
  - specialize (Down E).
    pose proof (@round_half_even_floor (n * 2 ^ (- e)) d D) as [F _].
    assert (2 ^ 52 <= n * 2 ^ (- e) / d) by (apply Z.div_le_lower_bound; lia).
    lia.
Qed.

Lemma ge_int_lt_int (x : Double.t) (n : Z) : Double.ge_int x n = negb (Double.lt_int x n).
Proof.
  unfold Double.ge_int, Double.lt_int.
  destruct (0 <=? Double.exponent x); apply Z.leb_antisym.
Qed.

Theorem total_seconds_lt_exact (delta ttl : Z) :
  0 <= ttl <= 2 ^ 34 -> Double.lt_int (total_seconds delta) ttl = (delta <? ttl * 1000000).
Proof.
  intros X. unfold total_seconds, Double.true_divide.
  destruct (Z.eqb_spec delta 0) as [->|NZ].
  - unfold Double.lt_int. simpl.
    destruct (Z.ltb_spec 0 ttl); destruct (Z.ltb_spec 0 (ttl * 1000000)); auto; lia.
  - destruct (Z.ltb_spec 0 delta) as [P|P].
    + now apply lt_int_pos.
    + pose proof (@mantissa_pos (- delta) 1000000 ltac:(lia) ltac:(lia)) as M.
      destruct X as [T0 T1].
      unfold Double.lt_int. cbn [Double.exponent Double.mantissa].
      set (x := Double.true_divide_pos (- delta) 1000000) in *.
      assert (0 < 2 ^ Z.abs (Double.exponent x)) by (apply Z.pow_pos_nonneg; lia).
      destruct (Z.leb_spec 0 (Double.exponent x)) as [E|E].
      * replace (Z.abs (Double.exponent x)) with (Double.exponent x) in * by lia.
        destruct (Z.ltb_spec (- Double.mantissa x * 2 ^ Double.exponent x) ttl);
          destruct (Z.ltb_spec delta (ttl * 1000000)); auto; nia.
      * replace (Z.abs (Double.exponent x)) with (- Double.exponent x) in * by lia.
        destruct (Z.ltb_spec (- Double.mantissa x) (ttl * 2 ^ (- Double.exponent x)));
          destruct (Z.ltb_spec delta (ttl * 1000000)); auto; nia.
Qed.

Lemma round_half_even_at_most (n d bound : Z) :
  0 < d -> n <= bound * d -> Double.round_half_even n d <= bound.
Proof.
  intros D N.
  pose proof (Z.div_mod n d ltac:(lia)) as E.
  pose proof (Z.mod_pos_bound n d D) as R.
  assert (Q : n / d <= bound) by nia.
  unfold Double.round_half_even.
  destruct (Z.ltb_spec (2 * (n mod d)) d) as [L|L]; [lia|].
  assert (n / d <= bound - 1) by nia.
  destruct (d <? 2 * (n mod d)); [lia|].
  destruct (Z.even (n / d)); lia.
Qed.

Lemma round_half_even_above (n d bound s : Z) :
  0 < d -> bound * d + s <= n -> d < 2 * s -> bound < Double.round_half_even n d.
Proof.
  intros D N S.
  pose proof (Z.div_mod n d ltac:(lia)) as E.
  pose proof (Z.mod_pos_bound n d D) as R.
  assert (Q : bound <= n / d) by nia.
  unfold Double.round_half_even.
  destruct (Z.ltb_spec (2 * (n mod d)) d) as [L|L]; [nia|].
  destruct (Z.ltb_spec d (2 * (n mod d))) as [L'|L']; [lia|].
  assert (bound + 1 <= n / d) by nia.
  destruct (Z.even (n / d)); lia.
Qed.

Lemma le_int_pos (n ttl : Z) :
  0 < n -> 0 <= ttl < 2 ^ 34 ->
  Double.le_int (Double.true_divide_pos n 1000000) ttl = (n <=? ttl * 1000000).
Proof.
  intros N [T0 T1].
  destruct (@true_divide_pos_lower n 1000000 N ltac:(lia)) as [Up Down].
  unfold Double.le_int.
  remember (Double.true_divide_pos n 1000000) as x eqn:X.
  unfold Double.true_divide_pos in X.
  set (e := Double.log2_quot n 1000000 - 52) in *.
  assert (Ee : Double.exponent x = e) by (subst x; reflexivity).
  assert (Em : Double.mantissa x
               = if 0 <=? e then Double.round_half_even n (1000000 * 2 ^ e)
                 else Double.round_half_even (n * 2 ^ (- e)) 1000000)
    by (subst x; reflexivity).
  rewrite Ee in *. rewrite Em. clear X Ee Em.
  destruct (Z.leb_spec 0 e) as [E|E].
  - specialize (Up E).
    assert (P : 0 < 2 ^ e) by (apply Z.pow_pos_nonneg; lia).
    assert (D : 0 < 1000000 * 2 ^ e) by lia.
    pose proof (@round_half_even_floor n (1000000 * 2 ^ e) D) as [F _].
    assert (2 ^ 52 <= n / (1000000 * 2 ^ e)) by (apply Z.div_le_lower_bound; lia).
    assert (2 ^ 34 < 2 ^ 52) by reflexivity.
    assert (2 ^ 52 <= 2 ^ 52 * 2 ^ e) by nia.
    destruct (Z.leb_spec (Double.round_half_even n (1000000 * 2 ^ e) * 2 ^ e) ttl);
      destruct (Z.leb_spec n (ttl * 1000000)); auto; nia.
  - specialize (Down E).
    assert (P : 0 < 2 ^ (- e)) by (apply Z.pow_pos_nonneg; lia).
    destruct (Z.leb_spec n (ttl * 1000000)) as [L|L].
    + apply Z.leb_le.
      apply (@round_half_even_at_most (n * 2 ^ (- e)) 1000000 (ttl * 2 ^ (- e)));
        [lia | nia].
    + apply Z.leb_gt.
      pose proof (@round_half_even_floor (n * 2 ^ (- e)) 1000000 ltac:(lia)) as [F _].
      assert (Q : ttl * 2 ^ (- e) <= n * 2 ^ (- e) / 1000000)
        by (apply Z.div_le_lower_bound; nia).
      destruct (Z.le_gt_cases 19 (- e)) as [Large|Small].
      * assert (S : 2 ^ 19 <= 2 ^ (- e)) by (apply Z.pow_le_mono_r; lia).
        change (2 ^ 19) with 524288 in S.
        apply (@round_half_even_above (n * 2 ^ (- e)) 1000000 (ttl * 2 ^ (- e)) (2 ^ (- e)));
          [lia | nia | lia].
      * assert (S : 2 ^ (- e) <= 2 ^ 18) by (apply Z.pow_le_mono_r; lia).
        assert (X : 2 ^ 52 = 2 ^ 34 * 2 ^ 18) by reflexivity.
        assert (ttl * 2 ^ (- e) + 1 <= 2 ^ 52) by nia.
        pose proof (Z.div_mod (n * 2 ^ (- e)) 1000000 ltac:(lia)) as DM.
        pose proof (Z.mod_pos_bound (n * 2 ^ (- e)) 1000000 ltac:(lia)) as R.
        assert (2 ^ 52 <= n * 2 ^ (- e) / 1000000) by (apply Z.div_le_lower_bound; lia).
        lia.
Qed.

Lemma gt_int_le_int (x : Double.t) (n : Z) : Double.gt_int x n = negb (Double.le_int x n).
Proof.
  unfold Double.gt_int, Double.le_int.
  destruct (0 <=? Double.exponent x); apply Z.ltb_antisym.
Qed.

Theorem total_seconds_le_exact (delta ttl : Z) :
  0 <= ttl < 2 ^ 34 -> Double.le_int (total_seconds delta) ttl = (delta <=? ttl * 1000000).
Proof.
  intros X. unfold total_seconds, Double.true_divide.
  destruct (Z.eqb_spec delta 0) as [->|NZ].
  - unfold Double.le_int. simpl.
    destruct (Z.leb_spec 0 ttl); destruct (Z.leb_spec 0 (ttl * 1000000)); auto; lia.
  - destruct (Z.ltb_spec 0 delta) as [P|P].
    + now apply le_int_pos.
    + pose proof (@mantissa_pos (- delta) 1000000 ltac:(lia) ltac:(lia)) as M.
      destruct X as [T0 T1].
      unfold Double.le_int. cbn [Double.exponent Double.mantissa].
      set (x := Double.true_divide_pos (- delta) 1000000) in *.
      assert (0 < 2 ^ Z.abs (Double.exponent x)) by (apply Z.pow_pos_nonneg; lia).
      destruct (Z.leb_spec 0 (Double.exponent x)) as [E|E].
      * replace (Z.abs (Double.exponent x)) with (Double.exponent x) in * by lia.
        destruct (Z.leb_spec (- Double.mantissa x * 2 ^ Double.exponent x) ttl);
          destruct (Z.leb_spec delta (ttl * 1000000)); auto; nia.
      * replace (Z.abs (Double.exponent x)) with (- Double.exponent x) in * by lia.
        destruct (Z.leb_spec (- Double.mantissa x) (ttl * 2 ^ (- Double.exponent x)));
          destruct (Z.leb_spec delta (ttl * 1000000)); auto; nia.
Qed.

(** The 24 hours of a password: the comparisons of [total_seconds()] with
    86400 in [set_tag_command] and in [cleanup_tasks] are the comparisons of
    microseconds of [not_expired] and [expired_passwords]. *)
Lemma not_expired_exact (now issued : datetime) :
  Double.le_int (total_seconds (now - issued)) 86400 = not_expired now issued.
Proof. apply total_seconds_le_exact. split; [lia | reflexivity]. Qed.

Lemma expired_exact (current_time time : datetime) :
  Double.gt_int (total_seconds (current_time - time)) 86400
  = (microseconds_per_day <? current_time - time).
Proof.
  rewrite gt_int_le_int, total_seconds_le_exact by (split; [lia | reflexivity]).
  symmetry. apply Z.ltb_antisym.
Qed.

(** Within [Cache.exact_range] an entry is live exactly until [ttl]
    seconds have passed, to the microsecond. *)
Lemma live_exact (V : Type) (c : Cache.t V) (now timestamp : datetime) :
  Cache.exact_range c ->
  Cache.live c now timestamp = (now - timestamp <? Cache.ttl c * 1000000).
Proof. intros Range. now apply total_seconds_lt_exact. Qed.

(** Beyond the range the rounding shows: with a time-to-live of 2^34 + 1
    seconds an entry expires a microsecond early. *)
Example live_rounds_beyond_exact_range :
  let c := Cache.mk ([] : Dict.t string (string * datetime)) (2 ^ 34 + 1) in
  let age := (2 ^ 34 + 1) * 1000000 - 1 in
  age < Cache.ttl c * 1000000 /\ Cache.live c age 0 = false.
Proof. split; reflexivity. Qed.

(** [Cache.get] within [Cache.exact_range]. *)
Lemma get_exact (V : Type) (c : Cache.t V) (now : datetime) (key : string) :
  Cache.exact_range c ->
  Cache.get now c key
  = match Dict.get (Cache.entries c) key with
    | Some (value, timestamp) =>
        if now - timestamp <? Cache.ttl c * 1000000 then (Some value, c)
        else (None, Cache.mk (Dict.del (Cache.entries c) key) (Cache.ttl c))
    | None => (None, c)
    end.
Proof.
  intros Range. unfold Cache.get.
  destruct (Dict.get (Cache.entries c) key) as [[v ts]|]; auto.
  now rewrite live_exact.
Qed.

(** X23. For a cache whose time-to-live is at most 2^34 seconds: a value
    put into the cache is returned as long as less than [ttl] seconds have
    passed; from then on [get] returns nothing and removes the entry.
    Putting a value under one key does not change what [get] returns for
    another key. *)
Theorem cache_set_then_get
  (V : Type) (c : Cache.t V) (key : string) (value : V) (t t' : datetime)
  (W : Dict.wf (Cache.entries c))
  (Range : Cache.exact_range c) :
  let c1 := Cache.set t c key value in
  (t' - t < Cache.ttl c * 1000000 -> Cache.get t' c1 key = (Some value, c1)) /\
  (Cache.ttl c * 1000000 <= t' - t ->
   fst (Cache.get t' c1 key) = None /\
   Dict.get (Cache.entries (snd (Cache.get t' c1 key))) key = None) /\
  (forall other, other <> key ->
                 fst (Cache.get t' c1 other) = fst (Cache.get t' c other)).
Proof.
  intros c1.
  assert (Range1 : Cache.exact_range c1) by exact Range.
  rewrite (@get_exact V c1 t' key Range1).
  split; [|split].
  - subst c1. simpl. rewrite get_set_same.
    intros L. apply Z.ltb_lt in L. now rewrite L.
  - subst c1. simpl. rewrite get_set_same.
    intros L. apply Z.ltb_ge in L. rewrite L. simpl. split; auto.
    apply get_del_same. now apply wf_set.
  - intros other N.
    rewrite (@get_exact V c1 t' other Range1), (@get_exact V c t' other Range).
    subst c1. simpl. rewrite get_set_other by congruence.
    destruct (Dict.get (Cache.entries c) other) as [[v ts]|]; auto.
    now destruct (t' - ts <? Cache.ttl c * 1000000).
Qed.

Lemma cache_set_then_get_witness :
  let c1 := Cache.set 0 (Cache.mk [] 3600) "user_name_100" "Ann"%string in
  Cache.get (3599 * 1000000) c1 "user_name_100" = (Some "Ann"%string, c1) /\
  fst (Cache.get (3600 * 1000000) c1 "user_name_100") = None.
Proof.
  assert (W : Dict.wf (Cache.entries (Cache.mk ([] : Dict.t string (string * datetime)) 3600)))
    by constructor.
  assert (Range : Cache.exact_range (Cache.mk ([] : Dict.t string (string * datetime)) 3600))
    by (unfold Cache.exact_range; simpl; lia).
  split.
  - apply (@cache_set_then_get string (Cache.mk [] 3600) "user_name_100" "Ann"%string
             0 (3599 * 1000000) W Range). simpl. lia.
  - destruct (@cache_set_then_get string (Cache.mk [] 3600) "user_name_100" "Ann"%string
                0 (3600 * 1000000) W Range) as (_ & Expired & _).
    apply Expired. simpl. lia.
Defined.

(** X24. [clear] removes exactly the entries that have expired, and, for a
    cache whose time-to-live is at most 2^34 seconds, it is invisible to
    the readers: at any later time [get] returns for every key what it
    would have returned without the [clear]. *)
Theorem cache_clear_is_invisible
  (V : Type) (c : Cache.t V) (now : datetime)
  (W : Dict.wf (Cache.entries c))
  (Range : Cache.exact_range c) :
  (forall key,
      Dict.get (Cache.entries (Cache.clear now c)) key
      = match Dict.get (Cache.entries c) key with
        | Some (value, timestamp) =>
            if Cache.live c now timestamp then Some (value, timestamp) else None
        | None => None
        end) /\
  (forall key t', now <= t' ->
                  fst (Cache.get t' (Cache.clear now c) key) = fst (Cache.get t' c key)).
Proof.
  assert (Spec : forall key,
             Dict.get (Cache.entries (Cache.clear now c)) key
             = match Dict.get (Cache.entries c) key with
               | Some (value, timestamp) =>
                   if Cache.live c now timestamp then Some (value, timestamp) else None
               | None => None
               end).
  { intros key. unfold Cache.clear. simpl.
    change (map fst (filter ?p ?d)) with (Dict.keys (filter p d)).
    rewrite get_after_deleting_selected by assumption.
    destruct (Dict.get (Cache.entries c) key) as [[v ts]|]; auto.
    simpl. unfold Cache.live. rewrite ge_int_lt_int.
    now destruct (Double.lt_int (total_seconds (now - ts)) (Cache.ttl c)). }
  split; [exact Spec|].
  intros key t' Later.
  assert (Range1 : Cache.exact_range (Cache.clear now c)) by exact Range.
  rewrite (@get_exact V (Cache.clear now c) t' key Range1), (@get_exact V c t' key Range).
  rewrite Spec.
  destruct (Dict.get (Cache.entries c) key) as [[v ts]|]; auto.
  rewrite (@live_exact V c now ts Range).
  change (Cache.ttl (Cache.clear now c)) with (Cache.ttl c).
  destruct (now - ts <? Cache.ttl c * 1000000) eqn:L1;
    destruct (t' - ts <? Cache.ttl c * 1000000) eqn:L2; simpl; auto.
  apply Z.ltb_ge in L1. apply Z.ltb_lt in L2. lia.
Qed.

Lemma cache_clear_is_invisible_witness :
  let c := Cache.mk [("a", ("x", 0)); ("b", ("y", 3000 * 1000000))]%string 3600 in
  Dict.get (Cache.entries (Cache.clear (4000 * 1000000) c)) "a"%string = None /\
  Dict.get (Cache.entries (Cache.clear (4000 * 1000000) c)) "b"%string
  = Some ("y"%string, 3000 * 1000000).
Proof.
  cbv zeta.
  set (c := Cache.mk [("a", ("x", 0)); ("b", ("y", 3000 * 1000000))]%string 3600).
  assert (W : Dict.wf (Cache.entries c))
    by (repeat constructor; simpl; intuition discriminate).
  assert (Range : Cache.exact_range c) by (unfold Cache.exact_range; simpl; lia).
  destruct (@cache_clear_is_invisible string c (4000 * 1000000) W Range) as [Spec _].
  split; rewrite Spec; reflexivity.
Defined.

(** ** Promotion *)

(** X25. [/promote] changes the state only when the sender has level 2,
    exactly one argument is given and parses as an id, the look-up of that
    id is answered, and the id belongs to a registered admin who is not at
    level 2 yet. In every other case the state is as before and nothing is
    saved. *)
Theorem promote_changes_state_only_when_allowed
  (parse_int : string -> option Z) (accepts : list Promote.step -> Promote.step -> bool)
  (user_id chat_id : Z) (args : list string) (s : State) :
  let r := Promote.promote_admin_command parse_int accepts user_id chat_id args s in
  (fst r <> s \/ existsb Promote.is_save (snd r) = true) ->
  Dict.get (admin_levels s) user_id = Some 2 /\
  exists arg target_id level,
    args = [arg] /\ parse_int arg = Some target_id /\
    accepts [] (Promote.LookUp target_id) = true /\
    Dict.get (admin_levels s) target_id = Some level /\ level <> 2.
Proof.
  unfold Promote.promote_admin_command, Promote.level_is_2.
  destruct (Dict.get (admin_levels s) user_id) as [l|] eqn:L; simpl;
    [|intros [X|X]; [congruence | discriminate]].
  destruct (Z.eqb_spec l 2) as [->|NL]; simpl;
    [|intros [X|X]; [congruence | discriminate]].
  destruct args as [|arg [|b r]]; simpl; try (intros [X|X]; [congruence | discriminate]).
  destruct (parse_int arg) as [target|] eqn:Parse; simpl;
    [|intros [X|X]; [congruence | discriminate]].
  destruct (accepts [] (Promote.LookUp target)) eqn:A; simpl;
    [|intros [X|X]; [congruence | discriminate]].
  unfold Dict.contains.
  destruct (Dict.get (admin_levels s) target) as [lt|] eqn:T; simpl;
    [|intros [X|X]; [congruence | discriminate]].
  destruct (Z.eqb_spec lt 2) as [->|NT]; simpl;
    [intros [X|X]; [congruence | discriminate]|].
  intros _. split; auto. exists arg, target, lt. repeat split; auto.
Qed.

Lemma promote_changes_state_only_when_allowed_witness :
  Dict.get (admin_levels (mkState [(7, "boss"); (1, "sam")]%string [(7, 2); (1, 1)] [] []
                                  [(7, true); (1, false)])) 7 = Some 2.
Proof.
  refine (proj1 (@promote_changes_state_only_when_allowed
                   (fun a => if String.eqb a "1" then Some 1 else None) (fun _ _ => true)
                   7 7 ["1"%string]
                   (mkState [(7, "boss"); (1, "sam")]%string [(7, 2); (1, 1)] [] []
                            [(7, true); (1, false)]) _)).
  left. vm_compute. discriminate.
Defined.

(** X26. A promotion that goes through puts the target at level 2 and
    makes it active, saves the state before anybody is told, and touches
    nobody else: the levels and flags of the other admins, the tags, the
    dialogs and the passwords are as before. *)
Theorem promote_raises_target_only
  (parse_int : string -> option Z) (accepts : list Promote.step -> Promote.step -> bool)
  (user_id chat_id target_id level : Z) (arg : string) (s : State)
  (Boss : Dict.get (admin_levels s) user_id = Some 2)
  (Parse : parse_int arg = Some target_id)
  (Found : accepts [] (Promote.LookUp target_id) = true)
  (Registered : Dict.get (admin_levels s) target_id = Some level)
  (Lower : level <> 2) :
  let r := Promote.promote_admin_command parse_int accepts user_id chat_id [arg] s in
  Dict.get (admin_levels (fst r)) target_id = Some 2 /\
  Dict.get (admin_active_status (fst r)) target_id = Some true /\
  (forall k, k <> target_id ->
             Dict.get (admin_levels (fst r)) k = Dict.get (admin_levels s) k /\
             Dict.get (admin_active_status (fst r)) k = Dict.get (admin_active_status s) k) /\
  admin_tags (fst r) = admin_tags s /\
  active_dialogs (fst r) = active_dialogs s /\
  one_time_passwords (fst r) = one_time_passwords s /\
  exists told,
    snd r = [Promote.LookUp target_id; Promote.Save (fst r);
             Promote.Reply chat_id (Promote.Promoted target_id)] ++ told /\
    existsb Promote.is_save told = false.
Proof.
  unfold Promote.promote_admin_command, Promote.level_is_2, Dict.contains.
  rewrite Boss. simpl. rewrite Parse, Found. simpl. rewrite Registered.
  apply Z.eqb_neq in Lower. rewrite Lower. simpl.
  match goal with
  | |- context [if ?b then _ else _] => destruct b
  end; simpl; rewrite !get_set_same;
    (split; [reflexivity|]; split; [reflexivity|]; split;
     [intros k N; rewrite !get_set_other by congruence; auto|];
     split; [reflexivity|]; split; [reflexivity|]; split; [reflexivity|];
     eexists; split; reflexivity).
Qed.

Lemma promote_raises_target_only_witness :
  let s := mkState [(7, "boss"); (1, "sam")]%string [(7, 2); (1, 1)] [] []
                   [(7, true); (1, false)] in
  let r := Promote.promote_admin_command
             (fun a => if String.eqb a "1" then Some 1 else None) (fun _ _ => true)
             7 7 ["1"%string] s in
  Dict.get (admin_levels (fst r)) 1 = Some 2 /\
  Dict.get (admin_active_status (fst r)) 1 = Some true.
Proof.
  cbv zeta.
  destruct (@promote_raises_target_only
              (fun a => if String.eqb a "1" then Some 1 else None) (fun _ _ => true)
              7 7 1 1 "1"
              (mkState [(7, "boss"); (1, "sam")]%string [(7, 2); (1, 1)] [] []
                       [(7, true); (1, false)])
              eq_refl eq_refl eq_refl eq_refl ltac:(discriminate)) as (L & A & _).
  split; [exact L | exact A].
Defined.

(** ** The levels *)

Lemma levels_valid_same (s s' : State) :
  admin_levels s' = admin_levels s -> levels_valid s -> levels_valid s'.
Proof. unfold levels_valid. intros E V a l. rewrite E. apply V. Qed.

(** X27. Every level in the registry is 1 or 2, and every handler keeps it
    so: registration writes level 1, promotion writes level 2, and the
    buttons and the messages write no level at all. *)
Theorem levels_stay_valid
  (tg : list event -> event -> reply) (lower : string -> string)
  (parse_int : string -> option Z) (accepts : list Promote.step -> Promote.step -> bool)
  (now : datetime) (fresh message : string) (admin_chat user_id chat_id : Z)
  (args : list string) (data : callback_data) (s : State)
  (Valid : levels_valid s) :
  levels_valid (state_after (set_tag_command tg now user_id chat_id args) s) /\
  levels_valid (fst (Promote.promote_admin_command parse_int accepts user_id chat_id args s)) /\
  levels_valid (state_after (button_callback tg now fresh user_id chat_id data) s) /\
  levels_valid (state_after (handle_message tg lower admin_chat user_id chat_id message) s).
Proof.
  split; [now apply set_tag_keeps_levels_valid|]. split; [|split].
  - unfold Promote.promote_admin_command.
    repeat match goal with
           | |- context [if ?b then _ else _] => destruct b; simpl; try exact Valid
           | |- context [match ?x with _ => _ end] => destruct x; simpl; try exact Valid
           end;
      intros a l; simpl;
      match goal with
      | |- Dict.get (Dict.set _ ?t _) _ = _ -> _ =>
          destruct (Z.eq_dec t a) as [->|N];
          [rewrite get_set_same; intros E; inversion E; subst; now right
          | rewrite get_set_other by assumption; apply Valid]
      end.
  - eapply levels_valid_same; [|exact Valid].
    apply (@button_callback_frame tg now fresh user_id chat_id data s).
  - eapply levels_valid_same; [|exact Valid].
    apply (@handle_message_total_and_frame tg lower admin_chat user_id chat_id message s).
Qed.

Lemma levels_stay_valid_witness :
  Dict.get (admin_levels (state_after (button_callback reliable 0 "" 1 1 ToggleStatus)
                                      Scenario.all_free)) 2 = Some 1 /\
  (1 = 1 \/ 1 = 2).
Proof.
  assert (Valid : levels_valid Scenario.all_free).
  { intros a l. unfold Scenario.all_free. cbn [admin_levels Dict.get].
    destruct (eqb 1 a); [intros E; inversion E; subst; now left|].
    destruct (eqb 2 a); [intros E; inversion E; subst; now left | discriminate]. }
  destruct (@levels_stay_valid reliable lower_ascii (fun _ => None) (fun _ _ => true)
              0 "" "" Scenario.admin_chat 1 1 [] ToggleStatus Scenario.all_free Valid)
    as (_ & _ & Buttons & _).
  split; [reflexivity | exact (Buttons 2 1 eq_refl)].
Defined.

(** ** The list of admins *)

(** X28. [/admins] lists every registered admin once, in the order of
    registration; it says "no admins" exactly when nobody is registered,
    and it invites the client to write a hashtag exactly when some
    registered admin is active and not in a dialog. *)
Theorem list_admins_reports_availability (s : State) :
  (ListAdmins.list_admins_command s = ListAdmins.NoAdmins <-> admin_levels s = []) /\
  (forall lines available,
      ListAdmins.list_admins_command s = ListAdmins.Admins lines available ->
      map snd lines
      = map (fun a => Dict.get_default (admin_tags s) a "Admin"%string)
            (Dict.keys (admin_levels s)) /\
      (available = true <->
       exists a, In a (Dict.keys (admin_levels s)) /\
                 Dict.contains (active_dialogs s) a = false /\
                 Dict.get_default (admin_active_status s) a true = true)).
Proof.
  unfold ListAdmins.list_admins_command, Dict.keys.
  split.
  - destruct (admin_levels s) as [|[a l] r]; simpl; split; auto; discriminate.
  - intros lines available E.
    assert (Shape : forall ks,
               map snd (map (fun admin_id =>
                               (ListAdmins.mark_of s admin_id,
                                Dict.get_default (admin_tags s) admin_id "Admin"%string)) ks)
               = map (fun a => Dict.get_default (admin_tags s) a "Admin"%string) ks)
      by (intros ks; rewrite map_map; reflexivity).
    assert (Flag : forall ks,
               existsb (fun l => ListAdmins.is_available (fst l))
                       (map (fun admin_id =>
                               (ListAdmins.mark_of s admin_id,
                                Dict.get_default (admin_tags s) admin_id "Admin"%string)) ks)
               = true <->
               exists a, In a ks /\
                         Dict.contains (active_dialogs s) a = false /\
                         Dict.get_default (admin_active_status s) a true = true).
    { intros ks. rewrite existsb_exists. split.
      - intros [[m t] [I A]]. apply in_map_iff in I. destruct I as [a [Ea Ia]].
        inversion Ea; subst. exists a. split; auto. simpl in A.
        unfold ListAdmins.mark_of in A.
        destruct (Dict.contains (active_dialogs s) a); [discriminate|].
        destruct (Dict.get_default (admin_active_status s) a true); [auto | discriminate].
      - intros [a [Ia [Fr Ac]]].
        exists (ListAdmins.mark_of s a, Dict.get_default (admin_tags s) a "Admin"%string).
        split; [apply in_map_iff; eauto|].
        simpl. unfold ListAdmins.mark_of. now rewrite Fr, Ac. }
    remember (map (fun admin_id =>
                     (ListAdmins.mark_of s admin_id,
                      Dict.get_default (admin_tags s) admin_id "Admin"%string))
                  (map fst (admin_levels s))) as L eqn:HL.
    assert (lines = L /\
            available = existsb (fun l => ListAdmins.is_available (fst l)) L) as [-> ->]
      by (destruct L; [discriminate | injection E as <- <-; split; reflexivity]).
    rewrite HL. split; [apply Shape | apply Flag].
Qed.

Lemma list_admins_reports_availability_witness :
  ListAdmins.list_admins_command Scenario.ann_with_client
  = ListAdmins.Admins [(ListAdmins.InDialog, "ann"); (ListAdmins.Available, "bob")]%string true /\
  exists a, In a (Dict.keys (admin_levels Scenario.ann_with_client)) /\
            Dict.contains (active_dialogs Scenario.ann_with_client) a = false /\
            Dict.get_default (admin_active_status Scenario.ann_with_client) a true = true.
Proof.
  split; [reflexivity|].
  destruct (@list_admins_reports_availability Scenario.ann_with_client) as [_ Lines].
  destruct (Lines _ _ eq_refl) as [_ Flag].
  apply Flag. reflexivity.
Defined.



(** ** Restoring *)

Section Restoring.
Import DatabaseConnection.

(** The backup that a restore takes is a [.db] file of the directory with
    the greatest name; there is none exactly when the directory has no
    [.db] file. *)
Lemma latest_backup_is_greatest (dir : list string) :
  (Restore.latest_backup dir = None <-> forall f, In f dir -> is_db f = false) /\
  (forall b, Restore.latest_backup dir = Some b ->
             In b dir /\ is_db b = true /\
             forall f, In f dir -> is_db f = true -> name_le f b).
Proof.
  unfold Restore.latest_backup.
  pose proof (sorted_perm (filter is_db dir)) as PB.
  pose proof (sorted_sorted (filter is_db dir)) as SS.
  destruct (rev (sorted (filter is_db dir))) as [|x r] eqn:R.
  - assert (sorted (filter is_db dir) = []) as E.
    { rewrite <- (rev_involutive (sorted (filter is_db dir))), R. reflexivity. }
    rewrite E in PB. apply Permutation_nil in PB.
    split; [|intros b X; discriminate].
    split; [|reflexivity]. intros _ f I.
    destruct (is_db f) eqn:D; auto.
    assert (In f (filter is_db dir)) as X by (apply filter_In; auto).
    rewrite PB in X. contradiction.
  - assert (sorted (filter is_db dir) = rev r ++ [x]) as E.
    { rewrite <- (rev_involutive (sorted (filter is_db dir))), R. reflexivity. }
    rewrite E in PB, SS.
    assert (In x (filter is_db dir)) as Ix.
    { eapply Permutation_in; [exact PB|]. apply in_or_app. right. now left. }
    apply filter_In in Ix. destruct Ix as [Ix Dx].
    split.
    + split; [discriminate|]. intros N. rewrite (N x Ix) in Dx. discriminate.
    + intros b Eb. inversion Eb; subst b. split; [exact Ix|]. split; [exact Dx|].
      intros f If Df.
      assert (In f (rev r ++ [x])) as X.
      { eapply Permutation_in; [symmetry; exact PB|]. apply filter_In. auto. }
      apply in_app_or in X. destruct X as [X|[<-|[]]].
      * eapply StronglySorted_app_le; eauto. now left.
      * apply name_le_refl.
Qed.

(** X30. A restore right after a backup brings back that backup: when the
    new backup has the latest name in the directory and the file operations
    go through, [_restore_from_backup] copies exactly the file that
    [_create_backup] has just written. With no [.db] file in the directory
    the restore does nothing. *)
Theorem restore_after_backup_takes_it
  (remove_ok : string -> bool) (stamp : string) (fs : files)
  (Present : db_exists fs = true)
  (Listing : NoDup (backup_dir fs))
  (Removable : forall f, remove_ok f = true)
  (Newest : forall f, In f (backup_dir fs) -> is_db f = true -> name_le f (backup_name stamp)) :
  let fs1 := fst (_create_backup true remove_ok stamp fs) in
  Restore._restore_from_backup true fs1
  = (mkFiles true (backup_dir fs1), Some (backup_name stamp)) /\
  (forall fs0, (forall f, In f (backup_dir fs0) -> is_db f = false) ->
               Restore._restore_from_backup true fs0 = (fs0, None)).
Proof.
  intros fs1. split.
  - set (name := backup_name stamp) in *.
    set (backups := sorted (filter is_db (copied name (backup_dir fs)))).
    destruct (@remove_each_all_ok remove_ok (all_but_last 5 backups)
                (copied name (backup_dir fs)) (fun f _ => Removable f)) as (_ & M & _).
    assert (E1 : backup_dir fs1
                 = fst (remove_each remove_ok (all_but_last 5 backups)
                                    (copied name (backup_dir fs)))).
    { subst fs1 backups name. unfold _create_backup. rewrite Present. cbv zeta.
      match goal with
      | |- context [remove_each ?a ?b ?c] => destruct (remove_each a b c)
      end.
      reflexivity. }
    assert (Kept : In name (last_n 5 backups)) by (now apply newest_backup_is_kept).
    assert (NB : NoDup backups).
    { eapply Permutation_NoDup; [symmetry; apply sorted_perm|].
      apply NoDup_filter. now apply NoDup_copied. }
    assert (In1 : In name (backup_dir fs1)).
    { rewrite E1. apply M. split; [apply In_copied; now left|].
      intros IR. rewrite (split_last_n 5 backups) in NB.
      exact (@NoDup_app_disjoint _ _ _ _ NB IR Kept). }
    destruct (latest_backup_is_greatest (backup_dir fs1)) as [None_iff Greatest].
    unfold Restore._restore_from_backup.
    destruct (Restore.latest_backup (backup_dir fs1)) as [b|] eqn:Lb.
    + destruct (Greatest b eq_refl) as (Ib & Db & Max).
      assert (b = name) as ->; [|reflexivity].
      apply name_le_antisym.
      * rewrite E1 in Ib. apply M in Ib. destruct Ib as [Ib _].
        apply In_copied in Ib. destruct Ib as [->|Ib]; [apply name_le_refl|].
        now apply Newest.
      * apply Max; [exact In1 | apply is_db_backup_name].
    + exfalso. destruct None_iff as [N _].
      pose proof (N eq_refl name In1) as D0.
      pose proof (is_db_backup_name stamp) as D. subst name. congruence.
  - intros fs0 N. unfold Restore._restore_from_backup.
    destruct (latest_backup_is_greatest (backup_dir fs0)) as [None_iff _].
    destruct None_iff as [_ X]. now rewrite (X N).
Qed.

Lemma restore_after_backup_takes_it_witness :
  Restore._restore_from_backup true
    (fst (_create_backup true (fun _ => true) "20240106_120000" Scenario.five_backups))
  = (mkFiles true
       (backup_dir (fst (_create_backup true (fun _ => true) "20240106_120000"
                                        Scenario.five_backups))),
     Some "support_bot_backup_20240106_120000.db"%string).
Proof.
  assert (Listing : NoDup (backup_dir Scenario.five_backups)).
  { repeat constructor; simpl; intuition discriminate. }
  apply (@restore_after_backup_takes_it (fun _ => true) "20240106_120000"
           Scenario.five_backups eq_refl Listing (fun _ => eq_refl)).
  intros f I D. simpl in I.
  repeat (destruct I as [<-|I]; [vm_compute; (reflexivity || discriminate)|]).
  contradiction.
Defined.

End Restoring.
